(** * second-brain: the retrieval core, embedded and verified

    Shallow embedding of
      - [scripts/load_csv.py]         ([normalize_whitespace]),
      - [scripts/chunk_notes.py]      ([chunk_text], [chunk_notes]),
      - [scripts/build_embeddings.py] ([generate_embeddings]),
      - [scripts/retrieve.py]         ([Retriever.retrieve]),
      - [config/settings.py]          (the chunking constants).

    Python [int] is [Z]; a Python [str] is the list of its code points;
    a [dict] with string keys is a [gmap string _]; a [while] loop takes
    fuel and answers [None] when the fuel runs out. *)

From Stdlib Require Import ZArith Lia Sorted.
From stdpp Require Import base list strings pretty gmap.

Local Open Scope Z_scope.

(** ** Python strings and slices *)

(** A [str] is a sequence of Unicode code points. *)
Definition pystr : Type := list N.

(** [len(text)] *)
Definition len {A} (l : list A) : Z := Z.of_nat (length l).

(** One bound of a slice [l[a:b]] over a sequence of length [n]: a
    negative bound counts from the end, and every bound is clipped to
    [0..n]. *)
Definition slice_bound (n i : Z) : Z :=
  if i <? 0 then Z.max 0 (i + n) else Z.min i n.

(** [l[a:b]] *)
Definition slice {A} (l : list A) (a b : Z) : list A :=
  let lo := slice_bound (len l) a in
  let hi := slice_bound (len l) b in
  take (Z.to_nat (hi - lo)) (drop (Z.to_nat lo) l).

(** [l[a:]] *)
Definition slice_from {A} (l : list A) (a : Z) : list A :=
  drop (Z.to_nat (slice_bound (len l) a)) l.

(** ** [config/settings.py] *)

Definition CHUNK_SIZE : Z := 512.
Definition CHUNK_OVERLAP : Z := 50.
Definition TOP_K : Z := 10.

(** ** [scripts/chunk_notes.py]: [chunk_text] *)

(** The [while start < len(text)] loop of [chunk_text]; [chunks] is the
    list built so far.  One unit of fuel pays for one pass through the
    loop body. *)
Fixpoint chunk_loop (fuel : nat) (text : pystr) (chunk_size overlap : Z)
    (start : Z) (chunks : list pystr) : option (list pystr) :=
  match fuel with
  | O => None
  | S fuel' =>
      if start <? len text then
        let end_ := start + chunk_size in
        let chunk := slice text start end_ in
        let chunks := chunks ++ [chunk] in
        let start := end_ - overlap in
        if start >=? len text then Some chunks
        else chunk_loop fuel' text chunk_size overlap start chunks
      else Some chunks
  end.

Definition chunk_text (fuel : nat) (text : pystr) (chunk_size overlap : Z)
    : option (list pystr) :=
  if len text <=? chunk_size then Some [text]
  else chunk_loop fuel text chunk_size overlap 0 [].

(** The windows the loop emits from position [s] on: one window per
    start position, [chunk_size - overlap] apart, until the next start
    position is at or past the end of the text. *)
Inductive windows (text : pystr) (chunk_size overlap : Z)
    : Z -> list pystr -> Prop :=
  | windows_last s :
      s < len text -> len text <= s + chunk_size - overlap ->
      windows text chunk_size overlap s [slice text s (s + chunk_size)]
  | windows_next s ws :
      s < len text -> s + chunk_size - overlap < len text ->
      windows text chunk_size overlap (s + chunk_size - overlap) ws ->
      windows text chunk_size overlap s (slice text s (s + chunk_size) :: ws).

(** Undoing the overlap: the first chunk as it is, every later chunk
    without its first [overlap] characters ([chunk[overlap:]]). *)
Definition strip_overlaps (overlap : Z) (chunks : list pystr) : pystr :=
  concat (map (fun c => slice_from c overlap) chunks).

Definition reconstruct (overlap : Z) (chunks : list pystr) : pystr :=
  match chunks with
  | [] => []
  | c :: rest => c ++ strip_overlaps overlap rest
  end.

(** All elements of a list but the last one. *)
Definition but_last {A} (l : list A) : list A := take (length l - 1)%nat l.

(** A text of ASCII characters as a [pystr]. *)
Definition of_string (s : string) : pystr :=
  map (fun a => N.of_nat (Ascii.nat_of_ascii a)) (String.list_ascii_of_string s).

(** ** [scripts/load_csv.py]: [normalize_whitespace] *)

(** Python's notion of a whitespace code point, shared by the regular
    expression class [\s] on [str] patterns and by [str.strip()]. *)
Definition Py_UNICODE_ISSPACE (c : N) : bool :=
  ((9 <=? c) && (c <=? 13) || (28 <=? c) && (c <=? 32)
   || (c =? 133) || (c =? 160) || (c =? 5760)
   || (8192 <=? c) && (c <=? 8202) || (c =? 8232) || (c =? 8233)
   || (c =? 8239) || (c =? 8287) || (c =? 12288))%N.

Definition SPACE : N := 32%N.

(** [re.sub(r'\s+', ' ', text)]: scanning from the left, every maximal
    run of whitespace becomes one space; [in_run] says that the previous
    character belonged to the run being replaced. *)
Fixpoint re_sub_spaces (in_run : bool) (text : pystr) : pystr :=
  match text with
  | [] => []
  | c :: rest =>
      if Py_UNICODE_ISSPACE c then
        if in_run then re_sub_spaces true rest
        else SPACE :: re_sub_spaces true rest
      else c :: re_sub_spaces false rest
  end.

(** [text.lstrip()], [text.rstrip()], [text.strip()] *)
Fixpoint lstrip (text : pystr) : pystr :=
  match text with
  | [] => []
  | c :: rest => if Py_UNICODE_ISSPACE c then lstrip rest else text
  end.

Definition rstrip (text : pystr) : pystr := reverse (lstrip (reverse text)).

Definition strip (text : pystr) : pystr := rstrip (lstrip text).

(** A cell of the [text] column is a [str] or missing ([None] here, for
    which [pd.isna] answers true). *)
Definition normalize_whitespace (text : option pystr) : pystr :=
  match text with
  | None => []
  | Some text =>
      if decide (text = []) then []
      else strip (re_sub_spaces false text)
  end.

(** What [re.sub(r'\s+', ' ', _)] leaves behind: every whitespace
    character is a space, and no two of them are adjacent;
    [after_space] says that the character in front was whitespace. *)
Fixpoint collapsed (after_space : bool) (text : pystr) : bool :=
  match text with
  | [] => true
  | c :: rest =>
      if Py_UNICODE_ISSPACE c
      then negb after_space && bool_decide (c = SPACE) && collapsed true rest
      else collapsed false rest
  end.

(** A text that does not start with whitespace. *)
Definition starts_clean (text : pystr) : bool :=
  match text with
  | [] => true
  | c :: _ => negb (Py_UNICODE_ISSPACE c)
  end.

(** A character that is not whitespace. *)
Definition nonspace (c : N) : bool := negb (Py_UNICODE_ISSPACE c).

(** ** [scripts/chunk_notes.py]: [chunk_notes] *)

(** A row of the DataFrame that [load_notes] returns, with its label. *)
Record note_row := {
  row_idx : Z;
  text_clean : pystr;
  row_created_at : option Z;
  row_modified_at : option Z
}.

Record chunk := {
  chunk_id : Z;
  original_index : Z;
  chunk_index : Z;
  text : pystr;
  created_at : option Z;
  modified_at : option Z;
  total_chunks : Z
}.

(** The state of the two nested loops: [chunked_data] and the counter
    [chunk_id]. *)
Definition chunker_state : Type := list chunk * Z.

(** [for chunk_idx, chunk_content in enumerate(chunks)], entered at
    position [chunk_idx]; [total] is [len(chunks)] of the whole list. *)
Fixpoint emit_chunks (row : note_row) (total : Z) (chunk_idx : Z)
    (chunks : list pystr) (st : chunker_state) : chunker_state :=
  match chunks with
  | [] => st
  | chunk_content :: rest =>
      let chunk_dict := {|
        chunk_id := st.2;
        original_index := row_idx row;
        chunk_index := chunk_idx;
        text := chunk_content;
        created_at := row_created_at row;
        modified_at := row_modified_at row;
        total_chunks := total
      |} in
      emit_chunks row total (chunk_idx + 1) rest (st.1 ++ [chunk_dict], st.2 + 1)
  end.

(** [for idx, row in df.iterrows()]; every call of [chunk_text] runs
    with the constants of [config/settings.py]. *)
Fixpoint chunk_rows (fuel : nat) (df : list note_row) (st : chunker_state)
    : option chunker_state :=
  match df with
  | [] => Some st
  | row :: rest =>
      match chunk_text fuel (text_clean row) CHUNK_SIZE CHUNK_OVERLAP with
      | None => None
      | Some chunks =>
          chunk_rows fuel rest (emit_chunks row (len chunks) 0 chunks st)
      end
  end.

Definition chunk_notes (fuel : nat) (df : list note_row) : option (list chunk) :=
  fst <$> chunk_rows fuel df ([], 0).

(** The invariant of the two loops: the counter is the number of chunks
    emitted so far, and every emitted chunk carries its own position. *)
Definition numbered (st : chunker_state) : Prop :=
  st.2 = len st.1
  /\ forall (j : nat) (c : chunk), st.1 !! j = Some c -> chunk_id c = Z.of_nat j.

(** The records that the inner loop of [chunk_notes] emits for one note
    whose chunks are [chunks], when the counter stands at [first_id]. *)
Definition note_records (row : note_row) (first_id : Z) (chunks : list pystr)
    : list chunk :=
  imap (fun k chunk_content => {|
          chunk_id := first_id + Z.of_nat k;
          original_index := row_idx row;
          chunk_index := Z.of_nat k;
          text := chunk_content;
          created_at := row_created_at row;
          modified_at := row_modified_at row;
          total_chunks := len chunks
        |}) chunks.

(** ** [scripts/build_embeddings.py]: [generate_embeddings] *)

Record metadata_record := {
  meta_chunk_id : Z;
  meta_text : pystr;
  meta_original_index : Z;
  meta_created_at : option Z;
  meta_modified_at : option Z
}.

Definition metadata_of (c : chunk) : metadata_record := {|
  meta_chunk_id := chunk_id c;
  meta_text := text c;
  meta_original_index := original_index c;
  meta_created_at := created_at c;
  meta_modified_at := modified_at c
|}.

(** [str(i)] of an integer. *)
Definition str (i : Z) : string := pretty i.

(** [range(0, n, step)] for a positive [step]. *)
Definition range_step (n step : Z) : list Z :=
  (fun j => Z.of_nat j * step) <$> seq 0 (Z.to_nat ((n + step - 1) / step)).

Definition batch_size : Z := 32.

(** The dictionary comprehension
    [{str(i): {...} for i, chunk in enumerate(chunks)}], entered at
    position [i] with the dictionary built so far. *)
Fixpoint build_metadata (i : Z) (chunks : list chunk)
    (metadata : gmap string metadata_record) : gmap string metadata_record :=
  match chunks with
  | [] => metadata
  | c :: rest => build_metadata (i + 1) rest (<[str i := metadata_of c]> metadata)
  end.

(** [np.vstack]: no rows to stack is a [ValueError]. *)
Definition vstack {vec} (arrays : list (list vec)) : option (list vec) :=
  match arrays with
  | [] => None
  | _ => Some (concat arrays)
  end.

(** The embedding model is a function from a text to its vector;
    [model.encode(batch)] embeds the texts of the batch in order.  A
    flat index keeps the added vectors in insertion order: it is the
    list of its rows, and [ntotal] is its length. *)
Definition model_encode {vec} (embed : pystr -> vec) (texts : list pystr)
    : list vec := embed <$> texts.

Definition generate_embeddings {vec} (embed : pystr -> vec)
    (chunks : list chunk)
    : option (list vec * gmap string metadata_record) :=
  let texts := text <$> chunks in
  let embeddings_list :=
    (fun i => model_encode embed (slice texts i (i + batch_size)))
      <$> range_step (len texts) batch_size in
  match vstack embeddings_list with
  | None => None
  | Some embeddings =>
      let index := embeddings in
      let metadata := build_metadata 0 chunks ∅ in
      Some (index, metadata)
  end.

(** ** [scripts/retrieve.py]: [Retriever.retrieve] *)

Record retrieved (dist : Type) := {
  r_text : pystr;
  r_chunk_id : Z;
  r_original_index : Z;
  r_created_at : option Z;
  r_modified_at : option Z;
  r_distance : dist
}.
Arguments r_text {dist} _.
Arguments r_chunk_id {dist} _.
Arguments r_original_index {dist} _.
Arguments r_created_at {dist} _.
Arguments r_modified_at {dist} _.
Arguments r_distance {dist} _.

Definition result_of {dist} (chunk_meta : metadata_record) (distance : dist)
    : retrieved dist := {|
  r_text := meta_text chunk_meta;
  r_chunk_id := meta_chunk_id chunk_meta;
  r_original_index := meta_original_index chunk_meta;
  r_created_at := meta_created_at chunk_meta;
  r_modified_at := meta_modified_at chunk_meta;
  r_distance := distance
|}.

(** The search routine of the index library, for one query vector: the
    row [distances[0]] and the row [indices[0]], or [None] when the call
    raises. *)
Definition index_search (vec dist : Type) : Type :=
  list vec -> vec -> Z -> option (list dist * list Z).

(** The library's contract on its answer: a request for [k >= 1]
    neighbours is answered with two rows of [k] entries (slot [-1]
    where the index has fewer vectors); a request for [k <= 0]
    neighbours is refused ([assert k > 0]), so the call raises. *)
Definition search_contract {vec dist} (search : index_search vec dist) : Prop :=
  forall index q k,
    (0 < k ->
     exists distances indices,
       search index q k = Some (distances, indices)
       /\ len distances = k /\ len indices = k)
    /\ (k <= 0 -> search index q k = None).

(** [for idx, distance in zip(indices[0], distances[0])], with the
    [results] collected so far.  A metadata record is a dictionary with
    five keys, so [if chunk_meta:] holds exactly when the lookup found
    one. *)
Fixpoint collect_results {dist} (metadata : gmap string metadata_record)
    (rows : list (Z * dist)) (results : list (retrieved dist))
    : list (retrieved dist) :=
  match rows with
  | [] => results
  | (idx, distance) :: rest =>
      match metadata !! str idx with
      | Some chunk_meta =>
          collect_results metadata rest (results ++ [result_of chunk_meta distance])
      | None => collect_results metadata rest results
      end
  end.

(** The rows that [retrieve] walks over: the answer of the index to
    [search(query_embedding, min(top_k, ntotal))], zipped. *)
Definition search_rows {vec dist} (search : index_search vec dist)
    (embed : pystr -> vec) (index : list vec) (query : pystr) (top_k : Z)
    : option (list (Z * dist)) :=
  let query_embedding := embed query in
  match search index query_embedding (Z.min top_k (len index)) with
  | None => None
  | Some (distances, indices) => Some (zip indices distances)
  end.

Definition retrieve {vec dist} (search : index_search vec dist)
    (embed : pystr -> vec) (index : list vec)
    (metadata : gmap string metadata_record) (query : pystr) (top_k : Z)
    : option (list (retrieved dist)) :=
  match search_rows search embed index query top_k with
  | None => None
  | Some rows => Some (collect_results metadata rows [])
  end.

(** The result that one row stands for, when its record exists. *)
Definition row_result {dist} (metadata : gmap string metadata_record)
    (row : Z * dist) : option (retrieved dist) :=
  (fun chunk_meta => result_of chunk_meta row.2) <$> metadata !! str row.1.

(** What a row of the search stands for when the metadata was built
    from [chunks]: the record of the chunk in that slot, with the
    distance of the row; nothing for a slot outside [0..N-1]. *)
Definition slot_result {dist} (chunks : list chunk) (row : Z * dist)
    : option (retrieved dist) :=
  if decide (0 <= row.1)
  then (fun c => result_of (metadata_of c) row.2) <$> chunks !! Z.to_nat row.1
  else None.

(** ** A reference index and sample data *)

(** A stand-in for the index library in the examples: exact search over
    integer vectors.  Squared Euclidean distance to every row, the rows
    ordered by distance, the first [k] of them; rows that do not exist
    are reported as slot [-1], and a request for [k <= 0] rows is
    refused. *)
Fixpoint l2_sqr (x y : list Z) : Z :=
  match x, y with
  | a :: x, b :: y => (a - b) * (a - b) + l2_sqr x y
  | _, _ => 0
  end.

Fixpoint insert_row (r : Z * Z) (rows : list (Z * Z)) : list (Z * Z) :=
  match rows with
  | [] => [r]
  | r' :: rest => if r.2 <? r'.2 then r :: rows else r' :: insert_row r rest
  end.

Definition sort_rows (rows : list (Z * Z)) : list (Z * Z) :=
  foldr insert_row [] rows.

Definition exact_search : index_search (list Z) Z :=
  fun index q k =>
    if k <=? 0 then None
    else
      let rows := imap (fun i x => (Z.of_nat i, l2_sqr q x)) index in
      let best := take (Z.to_nat k)
                       (sort_rows rows ++ replicate (Z.to_nat k) (-1, -1)) in
      Some (best.*2, best.*1).

(** An embedding for the examples: the code points of the text. *)
Definition codepoints (t : pystr) : list Z := Z.of_N <$> t.

Definition sample_df : list note_row := [
  {| row_idx := 0; text_clean := concat (replicate 300 (of_string "a "));
     row_created_at := Some 1650000000000000; row_modified_at := None |};
  {| row_idx := 2; text_clean := of_string "short note";
     row_created_at := None; row_modified_at := None |}
].

Definition sample_alpha : chunk :=
  {| chunk_id := 7; original_index := 0; chunk_index := 0;
     text := of_string "alpha"; created_at := None; modified_at := None;
     total_chunks := 2 |}.

Definition sample_beta : chunk :=
  {| chunk_id := 3; original_index := 0; chunk_index := 1;
     text := of_string "beta"; created_at := None; modified_at := None;
     total_chunks := 2 |}.

Definition sample_gamma : chunk :=
  {| chunk_id := 5; original_index := 4; chunk_index := 0;
     text := of_string "gamma"; created_at := Some 12; modified_at := None;
     total_chunks := 1 |}.

Definition sample_chunks : list chunk :=
  [sample_alpha; sample_beta; sample_gamma].

Definition sample_index : list (list Z) :=
  (fun c => codepoints (text c)) <$> sample_chunks.

(** The records of [sample_chunks] with the record of slot 1 lost. *)
Definition sample_metadata_gap : gmap string metadata_record :=
  delete (str 1) (build_metadata 0 sample_chunks ∅).

(** ** [scripts/load_csv.py]: [load_notes] *)

(** A row of the CSV file as [pd.read_csv] hands it over: the cell of
    the [text] column is a string or missing, a timestamp cell is an
    integer or missing.  The frame knows which of the three columns the
    file has; its rows are labelled [0, 1, 2, ...] in file order. *)
Record csv_row := {
  csv_text : option pystr;
  csv_created_at : option Z;
  csv_modified_at : option Z
}.

Record csv_frame := {
  has_text : bool;
  has_created_at : bool;
  has_modified_at : bool;
  csv_rows : list csv_row
}.

Inductive load_error := FileNotFoundError | ValueError.

(** [df['text_clean'] = df['text'].apply(normalize_whitespace)], row
    [i] of the frame; a metadata column that the file lacks is filled
    with [None]. *)
Definition clean_row (df : csv_frame) (i : nat) (r : csv_row) : note_row := {|
  row_idx := Z.of_nat i;
  text_clean := normalize_whitespace (csv_text r);
  row_created_at := if has_created_at df then csv_created_at r else None;
  row_modified_at := if has_modified_at df then csv_modified_at r else None
|}.

(** [text_clean != ""] *)
Definition nonempty_text (row : note_row) : bool :=
  negb (bool_decide (text_clean row = [])).

(** The argument is the content of [CSV_FILE], [None] when the file
    does not exist. *)
Definition load_notes (csv : option csv_frame) : load_error + list note_row :=
  match csv with
  | None => inl FileNotFoundError
  | Some df =>
      if negb (has_text df) then inl ValueError
      else inr (List.filter nonempty_text (imap (clean_row df) (csv_rows df)))
  end.

(** ** [app/cli.py]: [RAGSystem._generate_filename] *)

(** [text.split()]: the maximal runs of non-whitespace characters;
    [word] is the run being read. *)
Fixpoint split_ws (word : pystr) (text : pystr) : list pystr :=
  match text with
  | [] => if decide (word = []) then [] else [word]
  | c :: rest =>
      if Py_UNICODE_ISSPACE c then
        if decide (word = []) then split_ws [] rest
        else word :: split_ws [] rest
      else split_ws (word ++ [c]) rest
  end.

Definition py_split (text : pystr) : list pystr := split_ws [] text.

(** [sep.join(words)] *)
Fixpoint py_join (sep : pystr) (words : list pystr) : pystr :=
  match words with
  | [] => []
  | [w] => w
  | w :: rest => w ++ sep ++ py_join sep rest
  end.

Definition UNDERSCORE : N := 95%N.

(** The slug that [_generate_filename] computes from the query, up to
    and including [query_slug[:50]].  [lower] is [str.lower] and
    [is_word] the character class [\w]; both come from Python's Unicode
    tables and are parameters here. *)
Definition query_slug (lower : pystr -> pystr) (is_word : N -> bool)
    (query : pystr) : pystr :=
  let query_words :=
    List.filter (fun c => negb (negb (is_word c) && negb (Py_UNICODE_ISSPACE c)))
                (lower query) in
  let query_words := slice (py_split query_words) 0 5 in
  let query_slug := py_join [UNDERSCORE] query_words in
  let query_slug :=
    if len query_slug <? 3 then of_string "query" else query_slug in
  slice query_slug 0 50.

(** [timestamp] is [datetime.now().strftime("%Y%m%d_%H%M%S")]. *)
Definition generate_filename (lower : pystr -> pystr) (is_word : N -> bool)
    (timestamp : pystr) (query : pystr) : pystr :=
  query_slug lower is_word query ++ [UNDERSCORE] ++ timestamp ++ of_string ".md".

(** ASCII stand-ins for the two Unicode tables, for the examples. *)
Definition ascii_lower (text : pystr) : pystr :=
  (fun c => if ((65 <=? c) && (c <=? 90))%N then (c + 32)%N else c) <$> text.

Definition ascii_word (c : N) : bool :=
  ((48 <=? c) && (c <=? 57) || (65 <=? c) && (c <=? 90)
   || (97 <=? c) && (c <=? 122) || (c =? 95))%N.

Definition sample_csv : csv_frame := {|
  has_text := true; has_created_at := true; has_modified_at := false;
  csv_rows := [
    {| csv_text := Some (of_string "  first   note ");
       csv_created_at := Some 5; csv_modified_at := Some 6 |};
    {| csv_text := None; csv_created_at := Some 7; csv_modified_at := None |};
    {| csv_text := Some [32; 10; 9]%N;
       csv_created_at := None; csv_modified_at := None |};
    {| csv_text := Some (of_string "second");
       csv_created_at := None; csv_modified_at := Some 9 |}
  ]
|}.

(** * Properties *)

(** ** Slices *)

Lemma len_nonneg {A} (l : list A) : 0 <= len l.
Proof. unfold len. lia. Qed.

Lemma len_app {A} (l k : list A) : len (l ++ k) = len l + len k.
Proof. unfold len. rewrite length_app. lia. Qed.

Lemma slice_nonneg {A} (l : list A) (a b : Z) :
  0 <= a -> 0 <= b ->
  slice l a b = take (Z.to_nat b - Z.to_nat a) (drop (Z.to_nat a) l).
Proof.
  intros Ha Hb. unfold slice, slice_bound, len.
  destruct (Z.ltb_spec a 0); [lia|]. destruct (Z.ltb_spec b 0); [lia|].
  destruct (Z_le_gt_dec (Z.of_nat (length l)) a) as [Hge|Hlt].
  - rewrite !drop_ge by lia. by rewrite !take_nil.
  - replace (Z.to_nat (a `min` Z.of_nat (length l))) with (Z.to_nat a) by lia.
    destruct (Z_le_gt_dec b (Z.of_nat (length l))).
    + f_equal. lia.
    + rewrite !take_ge; [done | rewrite length_drop; lia | rewrite length_drop; lia].
Qed.

Lemma slice_from_nonneg {A} (l : list A) (a : Z) :
  0 <= a -> slice_from l a = drop (Z.to_nat a) l.
Proof.
  intros Ha. unfold slice_from, slice_bound, len.
  destruct (Z.ltb_spec a 0); [lia|].
  destruct (Z_le_gt_dec (Z.of_nat (length l)) a).
  - by rewrite !drop_ge by lia.
  - f_equal. lia.
Qed.

Lemma len_slice {A} (l : list A) (a b : Z) :
  0 <= a -> a <= b ->
  len (slice l a b) = Z.min b (len l) - Z.min a (len l).
Proof.
  intros Ha Hb. rewrite slice_nonneg by lia. unfold len.
  rewrite length_take, length_drop. lia.
Qed.

(** ** The loop of [chunk_text] *)

Section chunking.
Context (text : pystr) (chunk_size overlap : Z).

(** With a positive stride the loop ends within [len(text) - start]
    passes, and what it appends are the windows from [start] on. *)
Lemma chunk_loop_windows (fuel : nat) (start : Z) (chunks : list pystr) :
  overlap < chunk_size ->
  start < len text -> len text - start <= Z.of_nat fuel ->
  exists ws,
    chunk_loop fuel text chunk_size overlap start chunks = Some (chunks ++ ws)
    /\ windows text chunk_size overlap start ws.
Proof.
  intros Hstride. revert start chunks.
  induction fuel as [|fuel IH]; intros start chunks Hlt Hfuel; [lia|].
  cbn [chunk_loop]. destruct (Z.ltb_spec start (len text)); [|lia].
  destruct (Z.geb_spec (start + chunk_size - overlap) (len text)) as [Hend|Hmore].
  - eexists; split; [done|]. apply windows_last; lia.
  - destruct (IH (start + chunk_size - overlap)
                (chunks ++ [slice text start (start + chunk_size)]))
      as (ws & Hrun & Hws); [lia | lia |].
    exists (slice text start (start + chunk_size) :: ws). split.
    + rewrite Hrun. by rewrite <- app_assoc.
    + apply windows_next; [lia | lia | done].
Qed.

(** Without a positive stride the window never moves forward, and no
    amount of fuel lets the loop finish. *)
Lemma chunk_loop_stuck (fuel : nat) (start : Z) (chunks : list pystr) :
  chunk_size <= overlap -> 0 < len text -> start <= 0 ->
  chunk_loop fuel text chunk_size overlap start chunks = None.
Proof.
  intros Hstride Hpos. revert start chunks.
  induction fuel as [|fuel IH]; intros start chunks Hstart; [done|].
  cbn [chunk_loop]. destruct (Z.ltb_spec start (len text)); [|lia].
  destruct (Z.geb_spec (start + chunk_size - overlap) (len text)); [lia|].
  apply IH. lia.
Qed.

(** What [chunk_text] returns under a valid configuration. *)
Lemma chunk_text_cases (fuel : nat) :
  0 < chunk_size -> overlap < chunk_size -> (length text <= fuel)%nat ->
  (len text <= chunk_size
     /\ chunk_text fuel text chunk_size overlap = Some [text])
  \/ (chunk_size < len text
     /\ exists ws, chunk_text fuel text chunk_size overlap = Some ws
                   /\ windows text chunk_size overlap 0 ws).
Proof.
  intros Hsize Hstride Hfuel. unfold chunk_text.
  destruct (Z.leb_spec (len text) chunk_size) as [Hshort|Hlong]; [by left|].
  right. split; [done|].
  destruct (chunk_loop_windows fuel 0 []) as (ws & Hrun & Hws);
    [done | lia | unfold len; lia | by exists ws].
Qed.

End chunking.

(** ** The windows *)

Lemma but_last_cons {A} (x : A) (l : list A) :
  l <> [] -> but_last (x :: l) = x :: but_last l.
Proof.
  intros Hl. unfold but_last. destruct l as [|y l]; [done|].
  cbn [length]. replace (S (S (length l)) - 1)%nat with (S (S (length l) - 1)) by lia.
  done.
Qed.

Section windows_facts.
Context (text : pystr) (chunk_size overlap : Z).
Hypothesis size_pos : 0 < chunk_size.
Hypothesis overlap_nonneg : 0 <= overlap.
Hypothesis overlap_lt : overlap < chunk_size.

Abbreviation windows_from := (windows text chunk_size overlap).

Lemma windows_nonempty s ws : windows_from s ws -> ws <> [].
Proof. by destruct 1. Qed.

Lemma len_window s :
  0 <= s -> s < len text ->
  len (slice text s (s + chunk_size)) = Z.min chunk_size (len text - s).
Proof using size_pos overlap_nonneg overlap_lt.
  intros Hs Hlt. rewrite len_slice by lia. lia.
Qed.

Lemma windows_bounded s ws :
  windows_from s ws -> 0 <= s ->
  Forall (fun c => len c <= chunk_size) ws.
Proof using size_pos overlap_nonneg overlap_lt.
  induction 1 as [s Hlt Hend | s ws Hlt Hmore Hws IH]; intros Hs.
  - constructor; [|done]. rewrite len_window by done. lia.
  - constructor; [|apply IH; lia]. rewrite len_window by done. lia.
Qed.

(** Once the text left of a window start is shorter than a chunk, all
    windows from there on are short. *)
Lemma windows_short s ws :
  windows_from s ws -> 0 <= s -> len text - s < chunk_size ->
  Forall (fun c => len c < chunk_size) ws.
Proof using size_pos overlap_nonneg overlap_lt.
  induction 1 as [s Hlt Hend | s ws Hlt Hmore Hws IH]; intros Hs Hrest.
  - constructor; [|done]. rewrite len_window by done. lia.
  - constructor; [|apply IH; lia]. rewrite len_window by done. lia.
Qed.

Lemma windows_full_then_short s ws :
  windows_from s ws -> 0 <= s ->
  exists full short,
    ws = full ++ short
    /\ Forall (fun c => len c = chunk_size) full
    /\ Forall (fun c => len c < chunk_size) short.
Proof using size_pos overlap_nonneg overlap_lt.
  induction 1 as [s Hlt Hend | s ws Hlt Hmore Hws IH]; intros Hs.
  - destruct (Z_lt_ge_dec (len text - s) chunk_size) as [Hrest|Hrest].
    + exists [], [slice text s (s + chunk_size)]. repeat split; [done|].
      constructor; [|done]. rewrite len_window by done. lia.
    + exists [slice text s (s + chunk_size)], []. repeat split; [|done].
      constructor; [|done]. rewrite len_window by done. lia.
  - destruct (Z_lt_ge_dec (len text - s) chunk_size) as [Hrest|Hrest].
    + exists [], (slice text s (s + chunk_size) :: ws). repeat split; [done|].
      apply (windows_short s); [by apply windows_next | done | done].
    + destruct IH as (full & short & -> & Hfull & Hshort); [lia|].
      exists (slice text s (s + chunk_size) :: full), short.
      repeat split; [|done]. constructor; [|done].
      rewrite len_window by done. lia.
Qed.

Lemma windows_but_last s ws :
  windows_from s ws -> 0 <= s ->
  Forall (fun c => Z.min chunk_size (chunk_size - overlap + 1) <= len c)
         (but_last ws).
Proof using size_pos overlap_nonneg overlap_lt.
  induction 1 as [s Hlt Hend | s ws Hlt Hmore Hws IH]; intros Hs.
  - constructor.
  - rewrite but_last_cons by (by eapply windows_nonempty).
    constructor; [|apply IH; lia]. rewrite len_window by done. lia.
Qed.

(** The windows from [s] on, each without its first [overlap]
    characters, join to the text from [s + overlap] on. *)
Lemma windows_strip_overlaps s ws :
  windows_from s ws -> 0 <= s ->
  strip_overlaps overlap ws = drop (Z.to_nat (s + overlap)) text.
Proof using size_pos overlap_nonneg overlap_lt.
  unfold strip_overlaps.
  induction 1 as [s Hlt Hend | s ws Hlt Hmore Hws IH]; intros Hs;
    cbn [map concat]; rewrite slice_from_nonneg, slice_nonneg by lia.
  - rewrite app_nil_r, take_ge by (rewrite length_drop; unfold len in *; lia).
    rewrite drop_drop. f_equal. lia.
  - rewrite IH by lia.
    rewrite skipn_firstn_comm, drop_drop.
    replace (Z.to_nat (s + chunk_size - overlap + overlap))
      with (Z.to_nat s + Z.to_nat overlap
            + (Z.to_nat (s + chunk_size) - Z.to_nat s - Z.to_nat overlap))%nat
      by lia.
    rewrite <- (drop_drop _ _ (Z.to_nat s + Z.to_nat overlap)).
    rewrite take_drop. f_equal. lia.
Qed.

End windows_facts.

(** ** [chunk_text]: the claims *)

Lemma chunk_text_short (fuel : nat) (text : pystr) (chunk_size overlap : Z) :
  len text <= chunk_size ->
  chunk_text fuel text chunk_size overlap = Some [text].
Proof.
  intros Hshort. unfold chunk_text.
  by destruct (Z.leb_spec (len text) chunk_size); [|lia].
Qed.

(** With an overlap that is not below the chunk size, a text longer
    than a chunk keeps the loop running for ever: there is no check of
    the configuration in front of the loop. *)
Lemma chunk_text_diverges (fuel : nat) (text : pystr) (chunk_size overlap : Z) :
  0 < chunk_size -> chunk_size <= overlap -> chunk_size < len text ->
  chunk_text fuel text chunk_size overlap = None.
Proof.
  intros Hsize Hstride Hlong. unfold chunk_text.
  destruct (Z.leb_spec (len text) chunk_size); [lia|].
  apply chunk_loop_stuck; lia.
Qed.

Example chunk_text_abcdefghijk :
  chunk_text 11 (of_string "abcdefghijk") 10 5
  = Some [of_string "abcdefghij"; of_string "fghijk"; of_string "k"].
Proof. reflexivity. Qed.

Example chunk_text_short_note :
  chunk_text 0 (of_string "short note") CHUNK_SIZE CHUNK_OVERLAP
  = Some [of_string "short note"].
Proof. reflexivity. Qed.

Example chunk_text_overlap_3_3 :
  chunk_text 1000 (of_string "abcd") 3 3 = None.
Proof. apply chunk_text_diverges; unfold len; cbn; lia. Qed.

(** C1, as the code has it: [chunk_text] does not validate its
    configuration.  A text that fits into one chunk comes back as the
    one-element list whatever the overlap is, also when
    [overlap >= chunk_size]; and under every valid configuration
    ([chunk_size > 0], [0 <= overlap < chunk_size]) the call terminates,
    within [len(text)] passes of the loop, and returns a finite list. *)
Theorem chunk_text_unvalidated_terminates
    (fuel : nat) (text : pystr) (chunk_size overlap : Z) :
  (len text <= chunk_size ->
     chunk_text fuel text chunk_size overlap = Some [text])
  /\ (0 < chunk_size -> 0 <= overlap < chunk_size -> (length text <= fuel)%nat ->
      exists chunks, chunk_text fuel text chunk_size overlap = Some chunks).
Proof.
  split; [apply chunk_text_short|].
  intros Hsize [Hov Hstride] Hfuel.
  destruct (chunk_text_cases text chunk_size overlap fuel)
    as [[_ Hrun] | [_ (ws & Hrun & _)]]; eauto.
Qed.

Lemma chunk_text_unvalidated_terminates_witness :
  chunk_text 0 (of_string "ab") 2 2 = Some [of_string "ab"]
  /\ exists chunks, chunk_text 11 (of_string "abcdefghijk") 10 5 = Some chunks.
Proof.
  split.
  - apply (proj1 (chunk_text_unvalidated_terminates 0 (of_string "ab") 2 2)).
    vm_compute. discriminate.
  - apply (proj2 (chunk_text_unvalidated_terminates
                    11 (of_string "abcdefghijk") 10 5)).
    + lia.
    + lia.
    + vm_compute. lia.
Defined.

(** C1 as stated fails: with [chunk_size = 2] and [overlap = 2] the
    text "ab" is not rejected, the call returns the list of one chunk. *)
Lemma chunk_text_accepts_overlap_eq_size :
  0 < 2 /\ 2 >= 2
  /\ forall fuel, chunk_text fuel (of_string "ab") 2 2 = Some [of_string "ab"].
Proof. split; [lia|]. split; [lia|]. intros fuel. reflexivity. Qed.

(** C2: under a valid configuration the first chunk followed by every
    later chunk without its first [overlap] characters is the text. *)
Theorem chunk_text_reconstruct
    (fuel : nat) (text : pystr) (chunk_size overlap : Z) :
  0 < chunk_size -> 0 <= overlap < chunk_size -> (length text <= fuel)%nat ->
  exists chunks,
    chunk_text fuel text chunk_size overlap = Some chunks
    /\ reconstruct overlap chunks = text.
Proof.
  intros Hsize [Hov Hstride] Hfuel.
  destruct (chunk_text_cases text chunk_size overlap fuel)
    as [[_ Hrun] | [Hlong (ws & Hrun & Hws)]]; try done.
  - exists [text]. split; [done|]. cbn. by rewrite app_nil_r.
  - exists ws. split; [done|].
    inversion Hws as [s Hlt Hend | s ws' Hlt Hmore Hws']; subst; [lia|].
    cbn [reconstruct].
    rewrite (windows_strip_overlaps text chunk_size overlap)
      with (s := 0 + chunk_size - overlap) by (done || lia).
    rewrite slice_nonneg by lia.
    replace (Z.to_nat (0 + chunk_size - overlap + overlap))
      with (Z.to_nat (0 + chunk_size) - Z.to_nat 0)%nat by lia.
    change (Z.to_nat 0) with 0%nat. rewrite drop_0. apply take_drop.
Qed.

Lemma chunk_text_reconstruct_witness :
  exists chunks,
    chunk_text 11 (of_string "abcdefghijk") 10 5 = Some chunks
    /\ reconstruct 5 chunks = of_string "abcdefghijk".
Proof.
  apply (chunk_text_reconstruct 11 (of_string "abcdefghijk") 10 5).
  - lia.
  - lia.
  - vm_compute. lia.
Defined.

(** C3, as the code has it: under a valid configuration the returned
    list is a run of chunks of length exactly [chunk_size] followed by a
    run of chunks shorter than [chunk_size]; every chunk but the final
    one has at least [min(chunk_size, chunk_size - overlap + 1)]
    characters, so with [overlap = 0] every chunk but the final one has
    length exactly [chunk_size]. *)
Theorem chunk_text_full_then_short
    (fuel : nat) (text : pystr) (chunk_size overlap : Z) :
  0 < chunk_size -> 0 <= overlap < chunk_size -> (length text <= fuel)%nat ->
  exists full short,
    chunk_text fuel text chunk_size overlap = Some (full ++ short)
    /\ Forall (fun c => len c = chunk_size) full
    /\ Forall (fun c => len c < chunk_size) short
    /\ Forall (fun c => Z.min chunk_size (chunk_size - overlap + 1) <= len c)
              (but_last (full ++ short))
    /\ (overlap = 0 ->
        Forall (fun c => len c = chunk_size) (but_last (full ++ short))).
Proof.
  intros Hsize [Hov Hstride] Hfuel.
  destruct (chunk_text_cases text chunk_size overlap fuel)
    as [[Hshort Hrun] | [Hlong (ws & Hrun & Hws)]]; try done.
  - destruct (Z.eq_dec (len text) chunk_size) as [Heq|Hne].
    + exists [text], []. repeat split; try done; repeat constructor; done.
    + exists [], [text]. repeat split; try done; repeat constructor; lia.
  - destruct (windows_full_then_short text chunk_size overlap
                Hsize Hov Hstride 0 ws)
      as (full & short & -> & Hfull & Hshort); [done | lia |].
    pose proof (windows_but_last text chunk_size overlap
                  Hsize Hov Hstride 0 _ Hws ltac:(lia)) as Hbut.
    pose proof (windows_bounded text chunk_size overlap
                  Hsize Hov Hstride 0 _ Hws ltac:(lia)) as Hle.
    exists full, short. repeat split; try done.
    intros ->.
    assert (Hle' : Forall (fun c => len c <= chunk_size) (but_last (full ++ short))).
    { unfold but_last. by apply Forall_take. }
    clear -Hbut Hle'. induction Hbut as [|c l Hc Hl IH]; [done|].
    inversion Hle'; subst. constructor; [lia | by apply IH].
Qed.

Lemma chunk_text_full_then_short_witness :
  exists full short,
    chunk_text 11 (of_string "abcdefghijk") 10 5 = Some (full ++ short)
    /\ Forall (fun c => len c = 10) full
    /\ Forall (fun c => len c < 10) short
    /\ Forall (fun c => Z.min 10 (10 - 5 + 1) <= len c) (but_last (full ++ short))
    /\ (5 = 0 -> Forall (fun c => len c = 10) (but_last (full ++ short))).
Proof.
  apply (chunk_text_full_then_short 11 (of_string "abcdefghijk") 10 5).
  - lia.
  - lia.
  - vm_compute. lia.
Defined.

(** C3 as stated fails: for the text "abcdefghijk" with
    [chunk_size = 10] and [overlap = 5] the second of the three chunks,
    "fghijk", is not the final one and has 6 characters. *)
Lemma chunk_text_short_chunk_not_final :
  exists chunks,
    chunk_text 11 (of_string "abcdefghijk") 10 5 = Some chunks
    /\ ~ Forall (fun c => len c = 10) (but_last chunks).
Proof.
  eexists. split; [reflexivity|].
  intros H. apply Forall_cons_1 in H as [_ H]. apply Forall_cons_1 in H as [H _].
  vm_compute in H. discriminate.
Qed.

(** C6: a text of at most [chunk_size] characters comes back as the one
    chunk equal to it, and under a valid configuration no chunk is
    longer than [chunk_size]. *)
Theorem chunk_text_size_bound
    (fuel : nat) (text : pystr) (chunk_size overlap : Z) :
  (len text <= chunk_size ->
     chunk_text fuel text chunk_size overlap = Some [text])
  /\ (0 < chunk_size -> 0 <= overlap < chunk_size -> (length text <= fuel)%nat ->
      exists chunks,
        chunk_text fuel text chunk_size overlap = Some chunks
        /\ Forall (fun c => len c <= chunk_size) chunks).
Proof.
  split; [apply chunk_text_short|].
  intros Hsize [Hov Hstride] Hfuel.
  destruct (chunk_text_cases text chunk_size overlap fuel)
    as [[Hshort Hrun] | [Hlong (ws & Hrun & Hws)]]; try done.
  - exists [text]. split; [done|]. by repeat constructor.
  - exists ws. split; [done|].
    by apply (windows_bounded text chunk_size overlap Hsize Hov Hstride 0).
Qed.

Lemma chunk_text_size_bound_witness :
  chunk_text 0 (of_string "short note") 512 50 = Some [of_string "short note"]
  /\ exists chunks,
       chunk_text 11 (of_string "abcdefghijk") 10 5 = Some chunks
       /\ Forall (fun c => len c <= 10) chunks.
Proof.
  split.
  - apply (proj1 (chunk_text_size_bound 0 (of_string "short note") 512 50)).
    vm_compute. discriminate.
  - apply (proj2 (chunk_text_size_bound 11 (of_string "abcdefghijk") 10 5)).
    + lia.
    + lia.
    + vm_compute. lia.
Defined.

(** ** [normalize_whitespace] *)

Lemma SPACE_isspace : Py_UNICODE_ISSPACE SPACE = true.
Proof. reflexivity. Qed.

Lemma re_sub_spaces_collapsed (in_run : bool) (text : pystr) :
  collapsed in_run (re_sub_spaces in_run text) = true.
Proof.
  revert in_run. induction text as [|c rest IH]; intros in_run; [done|].
  cbn [re_sub_spaces]. destruct (Py_UNICODE_ISSPACE c) eqn:Hc.
  - destruct in_run; [apply IH|].
    cbn [collapsed]. rewrite SPACE_isspace, bool_decide_eq_true_2 by done.
    apply IH.
  - cbn [collapsed]. rewrite Hc. apply IH.
Qed.

Lemma re_sub_spaces_fixed (in_run : bool) (text : pystr) :
  collapsed in_run text = true -> re_sub_spaces in_run text = text.
Proof.
  revert in_run. induction text as [|c rest IH]; intros in_run Hcol; [done|].
  cbn [collapsed re_sub_spaces] in *. destruct (Py_UNICODE_ISSPACE c).
  - apply andb_prop in Hcol as [Hcol Hrest]. apply andb_prop in Hcol as [Hb Hc].
    apply negb_true_iff in Hb as ->. apply bool_decide_eq_true_1 in Hc as ->.
    f_equal. by apply IH.
  - f_equal. by apply IH.
Qed.

Lemma collapsed_prefix (b : bool) (text rest : pystr) :
  collapsed b (text ++ rest) = true -> collapsed b text = true.
Proof.
  revert b. induction text as [|c text IH]; intros b; [done|].
  cbn [app collapsed]. destruct (Py_UNICODE_ISSPACE c); [|apply IH].
  intros Hcol. apply andb_prop in Hcol as [-> Hrest]. by rewrite (IH _ Hrest).
Qed.

Lemma collapsed_lstrip (b : bool) (text : pystr) :
  collapsed b text = true -> collapsed false (lstrip text) = true.
Proof.
  revert b. induction text as [|c rest IH]; intros b; [done|].
  cbn [collapsed lstrip]. destruct (Py_UNICODE_ISSPACE c) eqn:Hc.
  - intros Hcol. apply andb_prop in Hcol as [_ Hrest]. by apply (IH true).
  - cbn [collapsed]. by rewrite Hc.
Qed.

Lemma lstrip_starts_clean (text : pystr) : starts_clean (lstrip text) = true.
Proof.
  induction text as [|c rest IH]; [done|]. cbn [lstrip].
  destruct (Py_UNICODE_ISSPACE c) eqn:Hc; [done|]. cbn. by rewrite Hc.
Qed.

Lemma lstrip_fixed (text : pystr) : starts_clean text = true -> lstrip text = text.
Proof.
  destruct text as [|c rest]; [done|]. cbn.
  by destruct (Py_UNICODE_ISSPACE c).
Qed.

Lemma starts_clean_prefix (text rest : pystr) :
  starts_clean (text ++ rest) = true -> starts_clean text = true.
Proof. by destruct text. Qed.

Lemma rstrip_snoc (text : pystr) (c : N) :
  rstrip (text ++ [c])
  = if Py_UNICODE_ISSPACE c then rstrip text else text ++ [c].
Proof.
  unfold rstrip. rewrite reverse_snoc. cbn [lstrip].
  destruct (Py_UNICODE_ISSPACE c); [done|].
  by rewrite reverse_cons, reverse_involutive.
Qed.

Lemma rstrip_prefix (text : pystr) : exists rest, text = rstrip text ++ rest.
Proof.
  induction text as [|c text [rest IH]] using rev_ind; [by exists []|].
  rewrite rstrip_snoc. destruct (Py_UNICODE_ISSPACE c).
  - exists (rest ++ [c]). by rewrite app_assoc, <- IH.
  - exists []. by rewrite app_nil_r.
Qed.

Lemma rstrip_idemp (text : pystr) : rstrip (rstrip text) = rstrip text.
Proof.
  unfold rstrip. rewrite reverse_involutive. f_equal.
  apply lstrip_fixed, lstrip_starts_clean.
Qed.

Lemma strip_idemp (text : pystr) : strip (strip text) = strip text.
Proof.
  unfold strip. rewrite (lstrip_fixed (rstrip (lstrip text))); [apply rstrip_idemp|].
  destruct (rstrip_prefix (lstrip text)) as [rest Hrest].
  apply (starts_clean_prefix _ rest). rewrite <- Hrest. apply lstrip_starts_clean.
Qed.

Lemma strip_collapsed (b : bool) (text : pystr) :
  collapsed b text = true -> collapsed false (strip text) = true.
Proof.
  intros Hcol. unfold strip.
  destruct (rstrip_prefix (lstrip text)) as [rest Hrest].
  apply (collapsed_prefix _ _ rest). rewrite <- Hrest.
  by apply (collapsed_lstrip b).
Qed.

Example normalize_whitespace_example :
  normalize_whitespace (Some [32; 97; 10; 9; 98; 160; 32]%N) = [97; 32; 98]%N.
Proof. reflexivity. Qed.

(** C9: [normalize_whitespace] is idempotent, on every string and on a
    missing cell. *)
Theorem normalize_whitespace_idempotent (x : option pystr) :
  normalize_whitespace (Some (normalize_whitespace x)) = normalize_whitespace x.
Proof.
  destruct x as [text|]; [|done].
  cbn [normalize_whitespace]. destruct (decide (text = [])) as [->|Hne]; [done|].
  set (r := strip (re_sub_spaces false text)).
  destruct (decide (r = [])) as [Hr|Hr]; [done|].
  rewrite re_sub_spaces_fixed.
  - apply strip_idemp.
  - apply (strip_collapsed false), re_sub_spaces_collapsed.
Qed.

(** ** [chunk_notes]: the counter and the positions *)

Lemma numbered_init : numbered ([], 0).
Proof. split; [done|]. intros j c Hj. cbn in Hj. by rewrite lookup_nil in Hj. Qed.

Lemma emit_chunks_numbered row total chunk_idx chunks st :
  numbered st -> numbered (emit_chunks row total chunk_idx chunks st).
Proof.
  revert chunk_idx st.
  induction chunks as [|content rest IH]; intros chunk_idx st Hst; [done|].
  cbn [emit_chunks]. apply IH. destruct st as [data cid], Hst as [Hcid Hpos].
  cbn [fst snd] in *. split; cbn [fst snd].
  - rewrite len_app. unfold len in *. cbn. lia.
  - intros j c Hj. apply lookup_snoc_Some in Hj as [[_ Hj] | [-> <-]].
    + by apply Hpos.
    + cbn. unfold len in Hcid. lia.
Qed.

Lemma chunk_rows_numbered fuel df st :
  Forall (fun row => (length (text_clean row) <= fuel)%nat) df ->
  numbered st ->
  exists st', chunk_rows fuel df st = Some st' /\ numbered st'.
Proof.
  intros Hfuel. revert st.
  induction Hfuel as [|row rest Hrow _ IH]; intros st Hst; [by exists st|].
  cbn [chunk_rows].
  destruct (chunk_text_cases (text_clean row) CHUNK_SIZE CHUNK_OVERLAP fuel)
    as [[_ ->] | [_ (ws & -> & _)]]; try done;
    by apply IH, emit_chunks_numbered.
Qed.

Example chunk_notes_sample :
  (fun data : list chunk =>
     (fun c => (chunk_id c, original_index c, chunk_index c,
                total_chunks c, len (text c))) <$> data)
    <$> chunk_notes 600 sample_df
  = Some [(0, 0, 0, 2, 512); (1, 0, 1, 2, 138); (2, 2, 0, 1, 10)].
Proof. vm_compute. reflexivity. Qed.

(** ** [generate_embeddings]: slots and records *)

Lemma build_metadata_before (i j : Z) chunks metadata :
  j < i -> build_metadata i chunks metadata !! str j = metadata !! str j.
Proof.
  revert i metadata.
  induction chunks as [|c rest IH]; intros i metadata Hlt; [done|].
  cbn [build_metadata]. rewrite IH by lia. apply lookup_insert_ne.
  unfold str. intros Heq%(inj pretty). lia.
Qed.

Lemma build_metadata_lookup (i : Z) chunks metadata (n : nat) (c : chunk) :
  chunks !! n = Some c ->
  build_metadata i chunks metadata !! str (i + Z.of_nat n) = Some (metadata_of c).
Proof.
  revert i metadata n.
  induction chunks as [|c' rest IH]; intros i metadata n Hn; [done|].
  cbn [build_metadata]. destruct n as [|n].
  - injection Hn as ->. rewrite Z.add_0_r, build_metadata_before by lia.
    apply lookup_insert_eq.
  - replace (i + Z.of_nat (S n)) with (i + 1 + Z.of_nat n) by lia.
    by apply IH.
Qed.

(** The batches of [step] rows cut at [0, step, 2*step, ...] put end to
    end are the rows themselves. *)
Lemma concat_batches {A} (l : list A) (step : Z) (k : nat) :
  0 < step ->
  concat ((fun i => slice l i (i + step))
            <$> ((fun j => Z.of_nat j * step) <$> seq 0 k))
  = take (k * Z.to_nat step) l.
Proof.
  intros Hstep. induction k as [|k IH]; [done|].
  rewrite seq_S, !fmap_app, concat_app, IH. cbn [fmap list_fmap concat].
  rewrite app_nil_r, slice_nonneg by lia. cbn [Nat.add].
  replace (Z.to_nat (Z.of_nat k * step)) with (k * Z.to_nat step)%nat by lia.
  replace (Z.to_nat (Z.of_nat k * step + step) - k * Z.to_nat step)%nat
    with (Z.to_nat step) by lia.
  rewrite take_take_drop. f_equal. lia.
Qed.

Lemma slice_fmap {A B} (f : A -> B) (l : list A) (a b : Z) :
  f <$> slice l a b = slice (f <$> l) a b.
Proof. unfold slice, len. by rewrite fmap_take, fmap_drop, length_fmap. Qed.

Lemma range_step_covers (n step : Z) :
  0 < step -> 0 <= n ->
  (Z.to_nat n <= Z.to_nat ((n + step - 1) / step) * Z.to_nat step)%nat.
Proof.
  intros Hstep Hn.
  pose proof (Z.mul_div_le (n + step - 1) step Hstep).
  pose proof (Z.mod_pos_bound (n + step - 1) step Hstep).
  pose proof (Z.div_mod (n + step - 1) step ltac:(lia)).
  assert (0 <= (n + step - 1) / step) by (apply Z.div_pos; lia).
  nia.
Qed.

Lemma generate_embeddings_built {vec} (embed : pystr -> vec) (chunks : list chunk) :
  chunks <> [] ->
  generate_embeddings embed chunks
  = Some ((fun c => embed (text c)) <$> chunks, build_metadata 0 chunks ∅).
Proof.
  intros Hne. unfold generate_embeddings, model_encode, range_step.
  set (texts := text <$> chunks).
  assert (Hlen : 0 < len texts).
  { unfold texts, len. rewrite length_fmap. destruct chunks; [done | cbn; lia]. }
  remember (Z.to_nat ((len texts + batch_size - 1) / batch_size)) as k eqn:Ek.
  assert (Hk : (Z.to_nat (len texts) <= k * Z.to_nat batch_size)%nat).
  { subst k. apply range_step_covers; [done | lia]. }
  assert (Hrows :
    concat ((fun i => embed <$> slice texts i (i + batch_size))
              <$> ((fun j => Z.of_nat j * batch_size) <$> seq 0 k))
    = (fun c => embed (text c)) <$> chunks).
  { erewrite list_fmap_ext; [| intros ? i _; apply slice_fmap].
    rewrite (concat_batches (embed <$> texts)) by done.
    rewrite take_ge by (rewrite length_fmap; unfold len in *; lia).
    unfold texts. by rewrite <- list_fmap_compose. }
  rewrite <- Hrows. clear Hrows Ek.
  destruct k as [|k]; [unfold len in *; lia|].
  rewrite seq_S, !fmap_app. unfold vstack.
  destruct ((_ <$> ((_ <$> seq 0 k))) ++ _) eqn:Happ; [|done].
  by apply app_eq_nil in Happ as [_ ?].
Qed.

Lemma generate_embeddings_empty {vec} (embed : pystr -> vec) :
  generate_embeddings embed [] = None.
Proof. reflexivity. Qed.

(** ** [Retriever.retrieve] *)

Lemma collect_results_omap {dist} metadata (rows : list (Z * dist)) results :
  collect_results metadata rows results
  = results ++ omap (row_result metadata) rows.
Proof.
  revert results.
  induction rows as [|[idx distance] rest IH]; intros results.
  - cbn. by rewrite app_nil_r.
  - cbn [collect_results omap list_omap]. unfold row_result at 1. cbn [fst snd].
    destruct (metadata !! str idx) as [chunk_meta|];
      cbn [fmap option_fmap option_map].
    + by rewrite IH, <- app_assoc.
    + apply IH.
Qed.

Lemma length_omap_le {A B} (f : A -> option B) (l : list A) :
  (length (omap f l) <= length l)%nat.
Proof.
  induction l as [|x l IH]; [done|]. cbn. destruct (f x); cbn; lia.
Qed.

Lemma retrieve_omap {vec dist} (search : index_search vec dist) embed index
    metadata query top_k rows :
  search_rows search embed index query top_k = Some rows ->
  retrieve search embed index metadata query top_k
  = Some (omap (row_result metadata) rows).
Proof.
  intros Hrows. unfold retrieve. rewrite Hrows.
  by rewrite collect_results_omap.
Qed.

Lemma exact_search_contract : search_contract exact_search.
Proof.
  intros index q k. unfold exact_search.
  destruct (Z.leb_spec k 0); split; intros Hk; try lia; [done|].
  eexists _, _. split; [reflexivity|]. unfold len.
  rewrite !length_fmap, length_take, length_app, length_replicate. lia.
Qed.

(** A clamped request for no neighbours makes the call of the index
    raise, and [retrieve] with it. *)
Lemma retrieve_refused {vec dist} (search : index_search vec dist)
    (embed : pystr -> vec) (index : list vec)
    (metadata : gmap string metadata_record) (query : pystr) (top_k : Z) :
  search_contract search -> Z.min top_k (len index) <= 0 ->
  retrieve search embed index metadata query top_k = None.
Proof.
  intros Hcontract Hk. unfold retrieve, search_rows.
  by rewrite (proj2 (Hcontract index (embed query) _) Hk).
Qed.

Example sample_search_rows :
  search_rows exact_search codepoints sample_index (of_string "beta") 5
  = Some [(1, 0); (0, 115); (2, 234)].
Proof. vm_compute. reflexivity. Qed.

Example sample_retrieve_gap :
  retrieve exact_search codepoints sample_index sample_metadata_gap
           (of_string "beta") 5
  = Some [result_of (metadata_of sample_alpha) 115;
          result_of (metadata_of sample_gamma) 234].
Proof. vm_compute. reflexivity. Qed.

(** ** Index, metadata and retrieval: the claims *)

Lemma generate_embeddings_slots {vec} (embed : pystr -> vec)
    (chunks : list chunk) (i : nat) (c : chunk) :
  chunks !! i = Some c ->
  exists index metadata,
    generate_embeddings embed chunks = Some (index, metadata)
    /\ len index = len chunks
    /\ index !! i = Some (embed (text c))
    /\ metadata !! str (Z.of_nat i) = Some (metadata_of c).
Proof.
  intros Hi. eexists _, _. split.
  - apply generate_embeddings_built. by intros ->.
  - pose proof (build_metadata_lookup 0 chunks ∅ i c Hi) as Hmeta.
    rewrite Z.add_0_l in Hmeta. repeat split.
    + unfold len. by rewrite length_fmap.
    + by rewrite list_lookup_fmap, Hi.
    + done.
Qed.

(** C4: building the index and the metadata store from one list of
    chunks succeeds whenever the list has a slot at all, and then slot
    [i] of the index holds the embedding of the text of chunk [i], and
    the metadata record under the key [str(i)] is the record of chunk
    [i]: its [chunk_id] is the [chunk_id] of that chunk. *)
Theorem generate_embeddings_slot_alignment {vec} (embed : pystr -> vec)
    (chunks : list chunk) (i : nat) (c : chunk) :
  chunks !! i = Some c ->
  exists index metadata,
    generate_embeddings embed chunks = Some (index, metadata)
    /\ len index = len chunks
    /\ index !! i = Some (embed (text c))
    /\ metadata !! str (Z.of_nat i) = Some (metadata_of c)
    /\ meta_chunk_id <$> metadata !! str (Z.of_nat i) = Some (chunk_id c).
Proof.
  intros Hi.
  destruct (generate_embeddings_slots embed chunks i c Hi)
    as (index & metadata & Hbuilt & Hlen & Hrow & Hmeta).
  exists index, metadata. repeat split; try done. by rewrite Hmeta.
Qed.

Lemma generate_embeddings_slot_alignment_witness :
  exists index metadata,
    generate_embeddings codepoints sample_chunks = Some (index, metadata)
    /\ len index = len sample_chunks
    /\ index !! 1%nat = Some (codepoints (of_string "beta"))
    /\ metadata !! str (Z.of_nat 1)
       = Some (metadata_of sample_beta)
    /\ meta_chunk_id <$> metadata !! str (Z.of_nat 1) = Some 3.
Proof.
  apply (generate_embeddings_slot_alignment
           codepoints sample_chunks 1 sample_beta).
  reflexivity.
Defined.

(** C10: [chunk_notes] terminates, and in the list it returns every
    chunk carries its own position as [chunk_id]; hence, in the
    metadata store built from that list, the record under [str(i)] has
    [chunk_id] equal to [i]. *)
Theorem chunk_notes_ids_are_positions (fuel : nat) (df : list note_row) :
  Forall (fun row => (length (text_clean row) <= fuel)%nat) df ->
  exists chunked_data,
    chunk_notes fuel df = Some chunked_data
    /\ (forall (j : nat) (c : chunk),
          chunked_data !! j = Some c -> chunk_id c = Z.of_nat j)
    /\ (forall vec (embed : pystr -> vec) (i : nat),
          (i < length chunked_data)%nat ->
          exists index metadata,
            generate_embeddings embed chunked_data = Some (index, metadata)
            /\ meta_chunk_id <$> metadata !! str (Z.of_nat i)
               = Some (Z.of_nat i)).
Proof.
  intros Hfuel.
  destruct (chunk_rows_numbered fuel df ([], 0) Hfuel numbered_init)
    as ([data cid] & Hrun & _ & Hpos).
  exists data. unfold chunk_notes. rewrite Hrun. split; [done|].
  split; [exact Hpos|].
  intros vec embed i Hi. apply lookup_lt_is_Some_2 in Hi as [c Hc].
  destruct (generate_embeddings_slots embed data i c Hc)
    as (index & metadata & Hbuilt & _ & _ & Hmeta).
  exists index, metadata. split; [done|]. rewrite Hmeta. cbn. f_equal.
  by apply Hpos.
Qed.

Lemma chunk_notes_ids_are_positions_witness :
  exists chunked_data,
    chunk_notes 600 sample_df = Some chunked_data
    /\ (forall (j : nat) (c : chunk),
          chunked_data !! j = Some c -> chunk_id c = Z.of_nat j)
    /\ (forall vec (embed : pystr -> vec) (i : nat),
          (i < length chunked_data)%nat ->
          exists index metadata,
            generate_embeddings embed chunked_data = Some (index, metadata)
            /\ meta_chunk_id <$> metadata !! str (Z.of_nat i)
               = Some (Z.of_nat i)).
Proof.
  apply (chunk_notes_ids_are_positions 600 sample_df).
  repeat constructor; vm_compute; lia.
Defined.

(** C7, as the code has it: given the contract of the index library,
    a search for [top_k >= 1] neighbours in an index of [N >= 1]
    vectors returns, without raising, [min(top_k, N)] rows, which is
    exactly [N] rows when [top_k > N]; and [retrieve] then returns at
    most [min(top_k, N)] results. *)
Theorem retrieve_clamps_top_k {vec dist} (search : index_search vec dist)
    (embed : pystr -> vec) (index : list vec)
    (metadata : gmap string metadata_record) (query : pystr) (top_k : Z) :
  search_contract search -> 0 < top_k -> 0 < len index ->
  exists rows results,
    search_rows search embed index query top_k = Some rows
    /\ len rows = Z.min top_k (len index)
    /\ (len index < top_k -> len rows = len index)
    /\ retrieve search embed index metadata query top_k = Some results
    /\ len results <= Z.min top_k (len index).
Proof.
  intros Hcontract Hk Hn.
  destruct (proj1 (Hcontract index (embed query) (Z.min top_k (len index))))
    as (distances & indices & Hsearch & Hd & Hi); [lia|].
  assert (Hrows : search_rows search embed index query top_k
                  = Some (zip indices distances)).
  { unfold search_rows. by rewrite Hsearch. }
  assert (Hlen : len (zip indices distances) = Z.min top_k (len index)).
  { unfold len in *. rewrite length_zip. lia. }
  exists (zip indices distances), (omap (row_result metadata) (zip indices distances)).
  split; [done|]. split; [done|]. split; [lia|].
  split; [by apply retrieve_omap|].
  rewrite <- Hlen. unfold len.
  pose proof (length_omap_le (row_result metadata) (zip indices distances)). lia.
Qed.

Lemma retrieve_clamps_top_k_witness :
  exists rows results,
    search_rows exact_search codepoints sample_index (of_string "beta") 5
    = Some rows
    /\ len rows = Z.min 5 (len sample_index)
    /\ (len sample_index < 5 -> len rows = len sample_index)
    /\ retrieve exact_search codepoints sample_index sample_metadata_gap
                (of_string "beta") 5 = Some results
    /\ len results <= Z.min 5 (len sample_index).
Proof.
  apply (retrieve_clamps_top_k exact_search codepoints sample_index
           sample_metadata_gap (of_string "beta") 5).
  - exact exact_search_contract.
  - lia.
  - vm_compute. reflexivity.
Defined.

(** C7 as stated fails: over an empty index ([N = 0]) the request
    [top_k = 5 > N] is clamped to [min(5, 0) = 0] neighbours, which the
    index library refuses, so the search and [retrieve] raise instead
    of returning [N = 0] results; and the same happens for [top_k = 0]
    over an index of three vectors. *)
Lemma retrieve_raises_on_empty_index :
  search_contract exact_search
  /\ len ([] : list (list Z)) < 5
  /\ search_rows exact_search codepoints [] (of_string "beta") 5 = None
  /\ retrieve exact_search codepoints [] ∅ (of_string "beta") 5 = None
  /\ retrieve exact_search codepoints sample_index sample_metadata_gap
              (of_string "beta") 0 = None.
Proof.
  split; [exact exact_search_contract|]. split; [done|]. split; [done|].
  split; apply retrieve_refused; (exact exact_search_contract || done).
Qed.

(** C8: when the search returns a slot that has no metadata record,
    [retrieve] does not raise; its results are those of the rows in
    front of that slot followed by those of the rows behind it, so every
    other returned slot that has a record keeps its result and its
    place. *)
Theorem retrieve_skips_missing_record {vec dist}
    (search : index_search vec dist) (embed : pystr -> vec)
    (index : list vec) (metadata : gmap string metadata_record)
    (query : pystr) (top_k : Z)
    (pre post : list (Z * dist)) (slot : Z) (distance : dist) :
  search_rows search embed index query top_k
    = Some (pre ++ (slot, distance) :: post) ->
  metadata !! str slot = None ->
  exists results,
    retrieve search embed index metadata query top_k = Some results
    /\ results = omap (row_result metadata) pre ++ omap (row_result metadata) post
    /\ forall (i : Z) (d : dist) (chunk_meta : metadata_record),
         (i, d) ∈ pre ++ post -> metadata !! str i = Some chunk_meta ->
         result_of chunk_meta d ∈ results.
Proof.
  intros Hrows Hmiss. eexists. split; [by apply retrieve_omap|].
  assert (Hdrop : omap (row_result metadata) (pre ++ (slot, distance) :: post)
                  = omap (row_result metadata) pre ++ omap (row_result metadata) post).
  { rewrite omap_app. f_equal. cbn [omap list_omap].
    unfold row_result at 1. cbn [fst]. by rewrite Hmiss. }
  split; [done|]. intros i d chunk_meta Hin Hmeta.
  rewrite Hdrop, <- omap_app. apply list_elem_of_omap. exists (i, d).
  split; [done|]. unfold row_result. cbn [fst snd]. by rewrite Hmeta.
Qed.

Lemma retrieve_skips_missing_record_witness :
  exists results,
    retrieve exact_search codepoints sample_index sample_metadata_gap
             (of_string "beta") 5 = Some results
    /\ results = omap (row_result sample_metadata_gap) []
                 ++ omap (row_result sample_metadata_gap) [(0, 115); (2, 234)]
    /\ forall (i : Z) (d : Z) (chunk_meta : metadata_record),
         (i, d) ∈ [] ++ [(0, 115); (2, 234)] ->
         sample_metadata_gap !! str i = Some chunk_meta ->
         result_of chunk_meta d ∈ results.
Proof.
  apply (retrieve_skips_missing_record exact_search codepoints sample_index
           sample_metadata_gap (of_string "beta") 5 [] [(0, 115); (2, 234)] 1 0).
  - vm_compute. reflexivity.
  - vm_compute. reflexivity.
Defined.

(** * Further properties of the code *)

Example load_notes_sample :
  load_notes (Some sample_csv)
  = inr [ {| row_idx := 0; text_clean := of_string "first note";
             row_created_at := Some 5; row_modified_at := None |};
          {| row_idx := 3; text_clean := of_string "second";
             row_created_at := None; row_modified_at := None |} ].
Proof. vm_compute. reflexivity. Qed.

Example generate_filename_sample :
  generate_filename ascii_lower ascii_word (of_string "20240102_030405")
    (of_string "What's  the plan, for Q3/Q4 budget review today?")
  = of_string "whats_the_plan_for_q3q4_20240102_030405.md".
Proof. vm_compute. reflexivity. Qed.

Example generate_filename_sample_default :
  generate_filename ascii_lower ascii_word (of_string "20240102_030405")
    (of_string "?!")
  = of_string "query_20240102_030405.md".
Proof. vm_compute. reflexivity. Qed.

(** ** [chunk_text]: where the windows lie *)

Lemma windows_lookup (text : pystr) (chunk_size overlap s : Z)
    (ws : list pystr) (i : nat) (c : pystr) :
  windows text chunk_size overlap s ws -> ws !! i = Some c ->
  c = slice text (s + Z.of_nat i * (chunk_size - overlap))
            (s + Z.of_nat i * (chunk_size - overlap) + chunk_size).
Proof.
  intros Hws. revert i.
  induction Hws as [s Hlt Hend | s ws Hlt Hmore Hws IH]; intros [|i] Hi.
  - injection Hi as <-. f_equal; lia.
  - done.
  - injection Hi as <-. f_equal; lia.
  - cbn in Hi. rewrite (IH i Hi). f_equal; lia.
Qed.

Lemma windows_count (text : pystr) (chunk_size overlap s : Z) (ws : list pystr) :
  windows text chunk_size overlap s ws -> overlap < chunk_size ->
  len ws = (len text - s + (chunk_size - overlap) - 1) / (chunk_size - overlap).
Proof.
  intros Hws Hstride.
  induction Hws as [s Hlt Hend | s ws Hlt Hmore Hws IH].
  - change (len [slice text s (s + chunk_size)]) with 1.
    apply (Z.div_unique_pos _ _ 1 (len text - s - 1)); lia.
  - transitivity (@len pystr ws + 1).
    { unfold len. cbn [length]. rewrite Nat2Z.inj_succ. apply Z.add_1_r. }
    rewrite IH.
    replace (len text - s + (chunk_size - overlap) - 1)
      with (len text - (s + chunk_size - overlap) + (chunk_size - overlap) - 1
            + 1 * (chunk_size - overlap)) by lia.
    rewrite Z.div_add by lia. done.
Qed.

Lemma windows_positive (text : pystr) (chunk_size overlap s : Z) (ws : list pystr) :
  windows text chunk_size overlap s ws -> 0 < chunk_size -> 0 <= s ->
  overlap < chunk_size ->
  Forall (fun c => 0 < len c) ws.
Proof.
  intros Hws Hsize Hs Hstride. revert Hs.
  induction Hws as [s Hlt Hend | s ws Hlt Hmore Hws IH]; intros Hs.
  - constructor; [|done]. rewrite len_slice by lia. lia.
  - constructor; [|apply IH; lia]. rewrite len_slice by lia. lia.
Qed.

(** X1: for a text longer than [chunk_size] and a valid configuration,
    [chunk_text] returns [ceil(len(text) / (chunk_size - overlap))]
    chunks, and chunk [i] is the slice
    [text[i*(chunk_size-overlap) : i*(chunk_size-overlap) + chunk_size]]. *)
Theorem chunk_text_kth_chunk
    (fuel : nat) (text : pystr) (chunk_size overlap : Z) :
  0 < chunk_size -> 0 <= overlap < chunk_size -> chunk_size < len text ->
  (length text <= fuel)%nat ->
  exists chunks,
    chunk_text fuel text chunk_size overlap = Some chunks
    /\ len chunks
       = (len text + (chunk_size - overlap) - 1) / (chunk_size - overlap)
    /\ forall (i : nat) (c : pystr),
         chunks !! i = Some c ->
         c = slice text (Z.of_nat i * (chunk_size - overlap))
                   (Z.of_nat i * (chunk_size - overlap) + chunk_size).
Proof.
  intros Hsize [Hov Hstride] Hlong Hfuel.
  destruct (chunk_text_cases text chunk_size overlap fuel)
    as [[Hshort _] | [_ (ws & Hrun & Hws)]]; try done; [lia|].
  exists ws. split; [done|]. split.
  - rewrite (windows_count _ _ _ _ _ Hws Hstride). f_equal. lia.
  - intros i c Hi. by rewrite (windows_lookup _ _ _ _ _ i c Hws Hi).
Qed.

Lemma chunk_text_kth_chunk_witness :
  exists chunks,
    chunk_text 11 (of_string "abcdefghijk") 10 5 = Some chunks
    /\ len chunks = (len (of_string "abcdefghijk") + (10 - 5) - 1) / (10 - 5)
    /\ forall (i : nat) (c : pystr),
         chunks !! i = Some c ->
         c = slice (of_string "abcdefghijk") (Z.of_nat i * (10 - 5))
                   (Z.of_nat i * (10 - 5) + 10).
Proof.
  apply (chunk_text_kth_chunk 11 (of_string "abcdefghijk") 10 5).
  - lia.
  - lia.
  - vm_compute. reflexivity.
  - vm_compute. lia.
Defined.

(** X2: with [chunk_size > 0], [overlap >= chunk_size] and a text
    longer than [chunk_size], the loop of [chunk_text] never ends: no
    number of passes lets the call return. *)
Theorem chunk_text_never_returns (text : pystr) (chunk_size overlap : Z) :
  0 < chunk_size -> chunk_size <= overlap -> chunk_size < len text ->
  ~ exists fuel chunks, chunk_text fuel text chunk_size overlap = Some chunks.
Proof.
  intros Hsize Hstride Hlong (fuel & chunks & Hrun).
  by rewrite chunk_text_diverges in Hrun.
Qed.

Lemma chunk_text_never_returns_witness :
  ~ exists fuel chunks, chunk_text fuel (of_string "abcd") 3 3 = Some chunks.
Proof.
  apply (chunk_text_never_returns (of_string "abcd") 3 3).
  - lia.
  - lia.
  - vm_compute. reflexivity.
Defined.

(** X3: under a valid configuration [chunk_text] never returns an empty
    list, and for a non-empty text it never returns an empty chunk. *)
Theorem chunk_text_no_empty_chunk
    (fuel : nat) (text : pystr) (chunk_size overlap : Z) :
  0 < chunk_size -> 0 <= overlap < chunk_size -> (length text <= fuel)%nat ->
  exists chunks,
    chunk_text fuel text chunk_size overlap = Some chunks
    /\ chunks <> []
    /\ (text <> [] -> Forall (fun c => 0 < len c) chunks).
Proof.
  intros Hsize [Hov Hstride] Hfuel.
  destruct (chunk_text_cases text chunk_size overlap fuel)
    as [[Hshort Hrun] | [Hlong (ws & Hrun & Hws)]]; try done.
  - exists [text]. split; [done|]. split; [done|]. intros Hne.
    constructor; [|done]. destruct text; [done|]. unfold len. cbn. lia.
  - exists ws. split; [done|]. split; [by eapply windows_nonempty|].
    intros _. by apply (windows_positive text chunk_size overlap 0).
Qed.

Lemma chunk_text_no_empty_chunk_witness :
  exists chunks,
    chunk_text 11 (of_string "abcdefghijk") 10 5 = Some chunks
    /\ chunks <> []
    /\ (of_string "abcdefghijk" <> [] -> Forall (fun c => 0 < len c) chunks).
Proof.
  apply (chunk_text_no_empty_chunk 11 (of_string "abcdefghijk") 10 5).
  - lia.
  - lia.
  - vm_compute. lia.
Defined.

(** ** [normalize_whitespace]: the shape of the result *)

Lemma collapsed_only_spaces (b : bool) (text : pystr) (c : N) :
  collapsed b text = true -> c ∈ text -> Py_UNICODE_ISSPACE c = true ->
  c = SPACE.
Proof.
  revert b. induction text as [|c' rest IH]; intros b Hcol Hin Hc.
  - by apply not_elem_of_nil in Hin.
  - cbn [collapsed] in Hcol. apply elem_of_cons in Hin as [->|Hin].
    + rewrite Hc in Hcol. apply andb_prop in Hcol as [Hcol _].
      apply andb_prop in Hcol as [_ Hsp]. by apply bool_decide_eq_true_1 in Hsp.
    + destruct (Py_UNICODE_ISSPACE c'); [|by eapply IH].
      apply andb_prop in Hcol as [_ Hrest]. by eapply IH.
Qed.

Lemma collapsed_no_run (b : bool) (l1 l2 : pystr) (x y : N) :
  collapsed b (l1 ++ x :: y :: l2) = true ->
  Py_UNICODE_ISSPACE x = true -> Py_UNICODE_ISSPACE y = false.
Proof.
  revert b. induction l1 as [|c l1 IH]; intros b Hcol Hx.
  - cbn [app collapsed] in Hcol. rewrite Hx in Hcol.
    apply andb_prop in Hcol as [_ Hrest].
    destruct (Py_UNICODE_ISSPACE y); [done|done].
  - cbn [app collapsed] in Hcol. destruct (Py_UNICODE_ISSPACE c).
    + apply andb_prop in Hcol as [_ Hrest]. by eapply IH.
    + by eapply IH.
Qed.

Lemma strip_starts_clean (text : pystr) : starts_clean (strip text) = true.
Proof.
  unfold strip. destruct (rstrip_prefix (lstrip text)) as [rest Hrest].
  apply (starts_clean_prefix _ rest). rewrite <- Hrest. apply lstrip_starts_clean.
Qed.

Lemma rstrip_ends_clean (text : pystr) (c : N) :
  last (rstrip text) = Some c -> Py_UNICODE_ISSPACE c = false.
Proof.
  unfold rstrip. rewrite last_reverse. intros Hhead.
  pose proof (lstrip_starts_clean (reverse text)) as Hclean.
  destruct (lstrip (reverse text)) as [|c' rest]; [done|].
  injection Hhead as ->. by apply negb_true_iff in Hclean.
Qed.

Lemma normalize_whitespace_collapsed (x : option pystr) :
  collapsed false (normalize_whitespace x) = true.
Proof.
  destruct x as [text|]; [|done]. cbn [normalize_whitespace].
  destruct (decide (text = [])); [done|].
  apply (strip_collapsed false), re_sub_spaces_collapsed.
Qed.

Lemma filter_re_sub_spaces (b : bool) (text : pystr) :
  List.filter nonspace (re_sub_spaces b text) = List.filter nonspace text.
Proof.
  revert b. induction text as [|c rest IH]; intros b; [done|].
  cbn [re_sub_spaces List.filter]. unfold nonspace at 2.
  destruct (Py_UNICODE_ISSPACE c) eqn:Hc; cbn [negb].
  - destruct b; [apply IH|]. cbn [List.filter]. unfold nonspace at 1.
    rewrite SPACE_isspace. cbn [negb]. apply IH.
  - cbn [List.filter]. unfold nonspace at 1. rewrite Hc. cbn [negb].
    f_equal. apply IH.
Qed.

Lemma filter_lstrip (text : pystr) :
  List.filter nonspace (lstrip text) = List.filter nonspace text.
Proof.
  induction text as [|c rest IH]; [done|]. cbn [lstrip].
  destruct (Py_UNICODE_ISSPACE c) eqn:Hc; [|done].
  cbn [List.filter]. unfold nonspace at 2. by rewrite Hc.
Qed.

Lemma filter_rstrip (text : pystr) :
  List.filter nonspace (rstrip text) = List.filter nonspace text.
Proof.
  induction text as [|c text IH] using rev_ind; [done|].
  rewrite rstrip_snoc. destruct (Py_UNICODE_ISSPACE c) eqn:Hc; [|done].
  rewrite List.filter_app, IH. cbn [List.filter]. unfold nonspace at 3.
  rewrite Hc. cbn [negb]. by rewrite app_nil_r.
Qed.

Lemma filter_nonspace_nil (text : pystr) :
  List.filter nonspace text = [] <->
  Forall (fun c => Py_UNICODE_ISSPACE c = true) text.
Proof.
  induction text as [|c rest IH]; [by split|].
  cbn [List.filter]. unfold nonspace at 1.
  destruct (Py_UNICODE_ISSPACE c) eqn:Hc; cbn [negb].
  - rewrite IH. split; [by constructor | by inversion 1].
  - split; [done|]. inversion 1; congruence.
Qed.

Lemma normalize_whitespace_head_clean (x : option pystr) (c : N) :
  head (normalize_whitespace x) = Some c -> Py_UNICODE_ISSPACE c = false.
Proof.
  intros Hhead. destruct x as [text|]; [|done].
  cbn [normalize_whitespace] in *. destruct (decide (text = [])); [done|].
  pose proof (strip_starts_clean (re_sub_spaces false text)) as Hclean.
  destruct (strip (re_sub_spaces false text)); [done|].
  injection Hhead as ->. by apply negb_true_iff in Hclean.
Qed.

Lemma filter_normalize_whitespace (text : pystr) :
  List.filter nonspace (normalize_whitespace (Some text))
  = List.filter nonspace text.
Proof.
  cbn [normalize_whitespace]. destruct (decide (text = [])) as [->|_]; [done|].
  unfold strip. by rewrite filter_rstrip, filter_lstrip, filter_re_sub_spaces.
Qed.

Lemma length_re_sub_spaces (b : bool) (text : pystr) :
  (length (re_sub_spaces b text) <= length text)%nat.
Proof.
  revert b. induction text as [|c rest IH]; intros b; [done|].
  pose proof (IH true). pose proof (IH false).
  cbn [re_sub_spaces]. destruct (Py_UNICODE_ISSPACE c); [destruct b|];
    cbn [length]; lia.
Qed.

Lemma length_lstrip (text : pystr) : (length (lstrip text) <= length text)%nat.
Proof.
  induction text as [|c rest IH]; [done|]. cbn [lstrip].
  destruct (Py_UNICODE_ISSPACE c); cbn [length]; lia.
Qed.

Lemma length_strip (text : pystr) : (length (strip text) <= length text)%nat.
Proof.
  unfold strip, rstrip. rewrite length_reverse.
  pose proof (length_lstrip (reverse (lstrip text))) as H1.
  rewrite length_reverse in H1. pose proof (length_lstrip text). lia.
Qed.

(** X4: the result of [normalize_whitespace] holds no whitespace
    character other than the space, no two whitespace characters in a
    row, and no whitespace at its start or at its end. *)
Theorem normalize_whitespace_shape (x : option pystr) :
  let r := normalize_whitespace x in
  (forall c, c ∈ r -> Py_UNICODE_ISSPACE c = true -> c = SPACE)
  /\ (forall l1 l2 a b, r = l1 ++ a :: b :: l2 ->
        Py_UNICODE_ISSPACE a = true -> Py_UNICODE_ISSPACE b = false)
  /\ (forall c, head r = Some c -> Py_UNICODE_ISSPACE c = false)
  /\ (forall c, last r = Some c -> Py_UNICODE_ISSPACE c = false).
Proof.
  intros r. pose proof (normalize_whitespace_collapsed x) as Hcol.
  fold r in Hcol. split; [|split; [|split]].
  - intros c. by apply (collapsed_only_spaces false).
  - intros l1 l2 a b Hr. rewrite Hr in Hcol. by apply (collapsed_no_run false l1 l2).
  - intros c. apply normalize_whitespace_head_clean.
  - intros c Hlast. subst r. destruct x as [text|]; [|done].
    cbn [normalize_whitespace] in *. destruct (decide (text = [])); [done|].
    by apply rstrip_ends_clean in Hlast.
Qed.

(** X5: [normalize_whitespace] neither drops nor reorders nor adds a
    non-whitespace character: the non-whitespace characters of the
    result are those of the argument, in order; and the result is never
    longer than the argument. *)
Theorem normalize_whitespace_keeps_nonspace (text : pystr) :
  List.filter nonspace (normalize_whitespace (Some text))
  = List.filter nonspace text
  /\ len (normalize_whitespace (Some text)) <= len text.
Proof.
  split; [apply filter_normalize_whitespace|].
  cbn [normalize_whitespace]. destruct (decide (text = [])) as [->|_]; [done|].
  pose proof (length_strip (re_sub_spaces false text)).
  pose proof (length_re_sub_spaces false text). unfold len. lia.
Qed.

(** X6: [normalize_whitespace] answers the empty string exactly for a
    missing cell and for a text made of whitespace only (the empty text
    included). *)
Theorem normalize_whitespace_empty_iff (x : option pystr) :
  normalize_whitespace x = [] <->
  forall text, x = Some text ->
    Forall (fun c => Py_UNICODE_ISSPACE c = true) text.
Proof.
  destruct x as [text|]; [|by split].
  pose proof (filter_normalize_whitespace text) as Hkeep.
  split.
  - intros Hnil t [= <-]. apply filter_nonspace_nil.
    by rewrite <- Hkeep, Hnil.
  - intros Hall. specialize (Hall text eq_refl).
    apply filter_nonspace_nil in Hall. rewrite Hall in Hkeep.
    apply filter_nonspace_nil in Hkeep.
    pose proof (normalize_whitespace_head_clean (Some text)) as Hhead.
    destruct (normalize_whitespace (Some text)) as [|c r]; [done|].
    apply Forall_cons_1 in Hkeep as [Hc _].
    specialize (Hhead c eq_refl). congruence.
Qed.

(** ** [load_notes] *)

Lemma normalize_whitespace_fixed (x : option pystr) :
  normalize_whitespace (Some (normalize_whitespace x)) = normalize_whitespace x.
Proof.
  destruct x as [text|]; [|done].
  cbn [normalize_whitespace]. destruct (decide (text = [])) as [->|Hne]; [done|].
  destruct (decide (strip (re_sub_spaces false text) = [])); [done|].
  rewrite re_sub_spaces_fixed; [apply strip_idemp|].
  apply (strip_collapsed false), re_sub_spaces_collapsed.
Qed.

Lemma filter_imap_labels (f : note_row -> bool) (l : list csv_row)
    (g : nat -> csv_row -> note_row) (k : nat) :
  (forall i r, row_idx (g i r) = Z.of_nat (k + i)) ->
  StronglySorted Z.lt (row_idx <$> List.filter f (imap g l))
  /\ Forall (fun row => Z.of_nat k <= row_idx row < Z.of_nat (k + length l))
            (List.filter f (imap g l)).
Proof.
  revert g k. induction l as [|x l IH]; intros g k Hg.
  - split; constructor.
  - rewrite imap_cons. cbn [List.filter length].
    destruct (IH (g ∘ S) (S k)) as [Hsorted Hbound].
    { intros i r. cbn. rewrite Hg. f_equal. lia. }
    assert (Hbound' : Forall (fun row => Z.of_nat k <= row_idx row
                                         < Z.of_nat (k + S (length l)))
                             (List.filter f (imap (g ∘ S) l))).
    { eapply Forall_impl; [exact Hbound|]. cbn. intros row. lia. }
    destruct (f (g 0%nat x)); [|done]. split.
    + cbn [fmap list_fmap]. constructor; [done|].
      apply Forall_fmap. eapply Forall_impl; [exact Hbound|].
      cbn. intros row. rewrite Hg. lia.
    + constructor; [|done]. rewrite Hg. lia.
Qed.

(** X7: when the CSV file exists and has a [text] column, [load_notes]
    returns rows; each has a non-empty text that [normalize_whitespace]
    leaves unchanged; their labels are positions in the file, strictly
    increasing; and the rows returned are exactly the cleaned rows of
    the file whose normalized text is not empty. *)
Theorem load_notes_rows (df : csv_frame) :
  has_text df = true ->
  exists rows,
    load_notes (Some df) = inr rows
    /\ Forall (fun row =>
                 text_clean row <> []
                 /\ normalize_whitespace (Some (text_clean row)) = text_clean row
                 /\ 0 <= row_idx row < len (csv_rows df)) rows
    /\ StronglySorted Z.lt (row_idx <$> rows)
    /\ forall row,
         row ∈ rows <->
         exists (i : nat) (r : csv_row),
           csv_rows df !! i = Some r /\ row = clean_row df i r
           /\ normalize_whitespace (csv_text r) <> [].
Proof.
  intros Htext. unfold load_notes. rewrite Htext. cbn [negb].
  eexists. split; [reflexivity|].
  assert (Hmem : forall row,
    row ∈ List.filter nonempty_text (imap (clean_row df) (csv_rows df)) <->
    exists (i : nat) (r : csv_row),
      csv_rows df !! i = Some r /\ row = clean_row df i r
      /\ normalize_whitespace (csv_text r) <> []).
  { intros row. rewrite list_elem_of_In, List.filter_In, <- list_elem_of_In.
    rewrite list_elem_of_lookup. split.
    - intros [[i Hi] Hne]. rewrite list_lookup_imap in Hi.
      destruct (csv_rows df !! i) as [r|] eqn:Hr; [|done].
      injection Hi as <-. exists i, r. repeat split; [done|].
      unfold nonempty_text in Hne. apply negb_true_iff in Hne.
      by apply bool_decide_eq_false_1 in Hne.
    - intros (i & r & Hr & -> & Hne). split.
      + exists i. by rewrite list_lookup_imap, Hr.
      + unfold nonempty_text. apply negb_true_iff.
        by apply bool_decide_eq_false_2. }
  destruct (filter_imap_labels nonempty_text (csv_rows df) (clean_row df) 0)
    as [Hsorted Hbound]; [done|].
  split; [|split; [done|done]].
  apply Forall_forall. intros row Hrow.
  pose proof (proj1 (Forall_forall _ _) Hbound row Hrow) as Hidx.
  apply Hmem in Hrow as (i & r & _ & -> & Hne). cbn [text_clean clean_row].
  split; [done|]. split; [apply normalize_whitespace_fixed|].
  cbn in Hidx. unfold len. cbn [row_idx clean_row]. lia.
Qed.

Lemma load_notes_rows_witness :
  exists rows,
    load_notes (Some sample_csv) = inr rows
    /\ Forall (fun row =>
                 text_clean row <> []
                 /\ normalize_whitespace (Some (text_clean row)) = text_clean row
                 /\ 0 <= row_idx row < len (csv_rows sample_csv)) rows
    /\ StronglySorted Z.lt (row_idx <$> rows)
    /\ forall row,
         row ∈ rows <->
         exists (i : nat) (r : csv_row),
           csv_rows sample_csv !! i = Some r /\ row = clean_row sample_csv i r
           /\ normalize_whitespace (csv_text r) <> [].
Proof. apply (load_notes_rows sample_csv). reflexivity. Defined.

(** ** [chunk_notes]: the records, note by note *)

Lemma chunk_text_valid (fuel : nat) (text : pystr) (chunk_size overlap : Z) :
  0 < chunk_size -> 0 <= overlap < chunk_size -> (length text <= fuel)%nat ->
  exists chunks,
    chunk_text fuel text chunk_size overlap = Some chunks
    /\ chunks <> []
    /\ reconstruct overlap chunks = text
    /\ Forall (fun c => len c <= chunk_size) chunks.
Proof.
  intros Hsize [Hov Hstride] Hfuel.
  destruct (chunk_text_cases text chunk_size overlap fuel)
    as [[Hshort Hrun] | [Hlong (ws & Hrun & Hws)]]; try done.
  - exists [text]. repeat split; try done.
    + cbn. by rewrite app_nil_r.
    + by repeat constructor.
  - exists ws. split; [done|]. split; [by eapply windows_nonempty|]. split.
    + inversion Hws as [s Hlt Hend | s ws' Hlt Hmore Hws']; subst; [lia|].
      cbn [reconstruct].
      rewrite (windows_strip_overlaps text chunk_size overlap)
        with (s := 0 + chunk_size - overlap) by (done || lia).
      rewrite slice_nonneg by lia.
      replace (Z.to_nat (0 + chunk_size - overlap + overlap))
        with (Z.to_nat (0 + chunk_size) - Z.to_nat 0)%nat by lia.
      change (Z.to_nat 0) with 0%nat. rewrite drop_0. apply take_drop.
    + by apply (windows_bounded text chunk_size overlap Hsize Hov Hstride 0).
Qed.

Lemma emit_chunks_records row total chunk_idx chunks (st : chunker_state) :
  emit_chunks row total chunk_idx chunks st
  = (st.1 ++ imap (fun k chunk_content => {|
                     chunk_id := st.2 + Z.of_nat k;
                     original_index := row_idx row;
                     chunk_index := chunk_idx + Z.of_nat k;
                     text := chunk_content;
                     created_at := row_created_at row;
                     modified_at := row_modified_at row;
                     total_chunks := total |}) chunks,
     st.2 + len chunks).
Proof.
  revert chunk_idx st.
  induction chunks as [|content rest IH]; intros chunk_idx [data cid].
  - cbn. by rewrite app_nil_r, Z.add_0_r.
  - cbn [emit_chunks]. rewrite IH. cbn [fst snd]. rewrite imap_cons.
    rewrite <- app_assoc. cbn [app]. rewrite !Z.add_0_r. f_equal.
    + do 2 f_equal. apply imap_ext. intros k t _. cbn. f_equal; lia.
    + unfold len. cbn [length]. lia.
Qed.

Lemma chunk_rows_groups (fuel : nat) (df : list note_row) (st : chunker_state) :
  Forall (fun row => (length (text_clean row) <= fuel)%nat) df ->
  exists groups,
    chunk_rows fuel df st
    = Some (st.1 ++ concat groups, st.2 + len (concat groups))
    /\ Forall2 (fun row g =>
                  exists chunks first_id,
                    chunk_text fuel (text_clean row) CHUNK_SIZE CHUNK_OVERLAP
                    = Some chunks
                    /\ g = note_records row first_id chunks) df groups.
Proof.
  intros Hfuel. revert st.
  induction Hfuel as [|row rest Hrow _ IH]; intros st.
  - exists []. split; [|constructor]. cbn. destruct st.
    by rewrite app_nil_r, Z.add_0_r.
  - destruct (chunk_text_valid fuel (text_clean row) CHUNK_SIZE CHUNK_OVERLAP)
      as (chunks & Hrun & _); [done | done | done |].
    cbn [chunk_rows]. rewrite Hrun, emit_chunks_records.
    destruct (IH (st.1 ++ note_records row st.2 chunks, st.2 + len chunks))
      as (groups & Hrest & Hgroups).
    exists (note_records row st.2 chunks :: groups). split.
    + unfold note_records in *.
      erewrite (imap_ext _ _ chunks); [rewrite Hrest|].
      * cbn [fst snd concat]. rewrite <- app_assoc, len_app.
        do 2 f_equal. unfold len. rewrite length_imap. lia.
      * intros k t _. cbn. f_equal.
    + constructor; [|done]. by exists chunks, st.2.
Qed.

Lemma note_records_text row first_id chunks :
  text <$> note_records row first_id chunks = chunks.
Proof.
  unfold note_records. rewrite fmap_imap.
  rewrite <- (list_fmap_id chunks) at 2. rewrite <- imap_const.
  by apply imap_ext.
Qed.

Lemma note_records_fields row first_id chunks :
  Forall (fun c => original_index c = row_idx row
                   /\ created_at c = row_created_at row
                   /\ modified_at c = row_modified_at row
                   /\ total_chunks c = len chunks
                   /\ 0 <= chunk_index c < len chunks
                   /\ text c ∈ chunks)
         (note_records row first_id chunks).
Proof.
  apply Forall_lookup_2. intros k c Hk. unfold note_records in Hk.
  rewrite list_lookup_imap in Hk.
  destruct (chunks !! k) as [t|] eqn:Ht; [|done]. injection Hk as <-.
  cbn. repeat split; try done; try lia.
  - apply lookup_lt_Some in Ht. unfold len. lia.
  - by eapply list_elem_of_lookup_2.
Qed.

(** X8: the list that [chunk_notes] returns is, note by note in the
    order of the DataFrame, the records of the chunks of that note: in
    the order [chunk_text] produced them, with [chunk_index] the
    position within the note, [total_chunks] the number of chunks of
    the note, the label of the note as [original_index] and the
    timestamps of the note; and [chunk_id] counts on through the whole
    list, across the notes: the record at position [j] has
    [chunk_id = j]. *)
Theorem chunk_notes_groups (fuel : nat) (df : list note_row) :
  Forall (fun row => (length (text_clean row) <= fuel)%nat) df ->
  exists groups,
    chunk_notes fuel df = Some (concat groups)
    /\ Forall2 (fun row g =>
                  exists chunks first_id,
                    chunk_text fuel (text_clean row) CHUNK_SIZE CHUNK_OVERLAP
                    = Some chunks
                    /\ g = note_records row first_id chunks) df groups
    /\ forall (j : nat) (c : chunk),
         concat groups !! j = Some c -> chunk_id c = Z.of_nat j.
Proof.
  intros Hfuel.
  destruct (chunk_rows_groups fuel df ([], 0) Hfuel) as (groups & Hrun & Hgroups).
  destruct (chunk_rows_numbered fuel df ([], 0) Hfuel numbered_init)
    as (st' & Hrun' & _ & Hpos).
  rewrite Hrun in Hrun'. injection Hrun' as <-. cbn [fst app] in Hpos.
  exists groups. split; [|by split]. unfold chunk_notes. by rewrite Hrun.
Qed.

Lemma chunk_notes_groups_witness :
  exists groups,
    chunk_notes 600 sample_df = Some (concat groups)
    /\ Forall2 (fun row g =>
                  exists chunks first_id,
                    chunk_text 600 (text_clean row) CHUNK_SIZE CHUNK_OVERLAP
                    = Some chunks
                    /\ g = note_records row first_id chunks) sample_df groups
    /\ forall (j : nat) (c : chunk),
         concat groups !! j = Some c -> chunk_id c = Z.of_nat j.
Proof.
  apply (chunk_notes_groups 600 sample_df).
  repeat constructor; vm_compute; lia.
Defined.

(** X9: no note is lost and every note can be rebuilt: each note of the
    DataFrame owns a non-empty run of consecutive records in the list
    that [chunk_notes] returns, all of them carrying its label and its
    timestamps, and undoing the overlap of [CHUNK_OVERLAP] characters
    on the texts of that run gives back the text of the note. *)
Theorem chunk_notes_rebuilds_notes (fuel : nat) (df : list note_row) :
  Forall (fun row => (length (text_clean row) <= fuel)%nat) df ->
  exists groups,
    chunk_notes fuel df = Some (concat groups)
    /\ Forall2 (fun row g =>
                  g <> []
                  /\ Forall (fun c => original_index c = row_idx row
                                      /\ created_at c = row_created_at row
                                      /\ modified_at c = row_modified_at row) g
                  /\ reconstruct CHUNK_OVERLAP (text <$> g) = text_clean row)
               df groups.
Proof.
  intros Hfuel.
  destruct (chunk_rows_groups fuel df ([], 0) Hfuel) as (groups & Hrun & Hgroups).
  exists groups. split; [unfold chunk_notes; by rewrite Hrun|].
  clear Hrun. revert Hfuel.
  induction Hgroups as [|row g rest gs (chunks & first_id & Hrun & ->) _ IH];
    intros Hfuel; [constructor|].
  apply Forall_cons_1 in Hfuel as [Hrow Hfuel]. constructor; [|by apply IH].
  destruct (chunk_text_valid fuel (text_clean row) CHUNK_SIZE CHUNK_OVERLAP)
    as (chunks' & Hrun' & Hne & Hrec & _); [done | done | done |].
  rewrite Hrun in Hrun'. injection Hrun' as <-. split; [|split].
  - unfold note_records. destruct chunks; [done|]. by rewrite imap_cons.
  - eapply Forall_impl; [apply note_records_fields|].
    intros c (? & ? & ? & _). done.
  - by rewrite note_records_text.
Qed.

Lemma chunk_notes_rebuilds_notes_witness :
  exists groups,
    chunk_notes 600 sample_df = Some (concat groups)
    /\ Forall2 (fun row g =>
                  g <> []
                  /\ Forall (fun c => original_index c = row_idx row
                                      /\ created_at c = row_created_at row
                                      /\ modified_at c = row_modified_at row) g
                  /\ reconstruct CHUNK_OVERLAP (text <$> g) = text_clean row)
               sample_df groups.
Proof.
  apply (chunk_notes_rebuilds_notes 600 sample_df).
  repeat constructor; vm_compute; lia.
Defined.

(** X10: in the list that [chunk_notes] returns every record has
    [0 <= chunk_index < total_chunks] and a text of at most
    [CHUNK_SIZE] characters, and there are at least as many records as
    notes. *)
Theorem chunk_notes_record_bounds (fuel : nat) (df : list note_row) :
  Forall (fun row => (length (text_clean row) <= fuel)%nat) df ->
  exists chunked_data,
    chunk_notes fuel df = Some chunked_data
    /\ Forall (fun c => 0 <= chunk_index c < total_chunks c
                        /\ len (text c) <= CHUNK_SIZE) chunked_data
    /\ (length df <= length chunked_data)%nat.
Proof.
  intros Hfuel.
  destruct (chunk_rows_groups fuel df ([], 0) Hfuel) as (groups & Hrun & Hgroups).
  exists (concat groups). split; [unfold chunk_notes; by rewrite Hrun|].
  clear Hrun. revert Hfuel.
  induction Hgroups as [|row g rest gs (chunks & first_id & Hrun & ->) _ IH];
    intros Hfuel; [by split|].
  apply Forall_cons_1 in Hfuel as [Hrow Hfuel].
  destruct (IH Hfuel) as [Hall Hcount].
  destruct (chunk_text_valid fuel (text_clean row) CHUNK_SIZE CHUNK_OVERLAP)
    as (chunks' & Hrun' & Hne & _ & Hsize); [done | done | done |].
  rewrite Hrun in Hrun'. injection Hrun' as <-.
  cbn [concat]. split.
  - apply Forall_app. split; [|done].
    eapply Forall_impl; [apply note_records_fields|].
    intros c (_ & _ & _ & -> & Hidx & Hin). split; [done|].
    by apply (proj1 (Forall_forall _ _) Hsize).
  - rewrite length_app. unfold note_records. rewrite length_imap.
    destruct chunks; [done|]. cbn [length]. lia.
Qed.

Lemma chunk_notes_record_bounds_witness :
  exists chunked_data,
    chunk_notes 600 sample_df = Some chunked_data
    /\ Forall (fun c => 0 <= chunk_index c < total_chunks c
                        /\ len (text c) <= CHUNK_SIZE) chunked_data
    /\ (length sample_df <= length chunked_data)%nat.
Proof.
  apply (chunk_notes_record_bounds 600 sample_df).
  repeat constructor; vm_compute; lia.
Defined.

(** ** [generate_embeddings]: failure and keys *)

Lemma build_metadata_origin (i : Z) chunks metadata key m :
  build_metadata i chunks metadata !! key = Some m ->
  metadata !! key = Some m
  \/ exists (n : nat) (c : chunk),
       chunks !! n = Some c /\ key = str (i + Z.of_nat n) /\ m = metadata_of c.
Proof.
  revert i metadata.
  induction chunks as [|c rest IH]; intros i metadata Hkey; [by left|].
  cbn [build_metadata] in Hkey. apply IH in Hkey as [Hkey | (n & c' & Hn & -> & ->)].
  - destruct (decide (str i = key)) as [<-|Hne].
    + rewrite lookup_insert_eq in Hkey. injection Hkey as <-.
      right. exists 0%nat, c. by rewrite Z.add_0_r.
    + rewrite lookup_insert_ne in Hkey by done. by left.
  - right. exists (S n), c'. repeat split; [done|]. f_equal. lia.
Qed.

Lemma build_metadata_size (i : Z) chunks (metadata : gmap string metadata_record) :
  (forall j, i <= j -> metadata !! str j = None) ->
  size (build_metadata i chunks metadata) = (size metadata + length chunks)%nat.
Proof.
  revert i metadata.
  induction chunks as [|c rest IH]; intros i metadata Hfresh; [cbn; lia|].
  cbn [build_metadata length]. rewrite IH.
  - rewrite map_size_insert_None by (apply Hfresh; lia). lia.
  - intros j Hj. rewrite lookup_insert_ne; [apply Hfresh; lia|].
    unfold str. intros Heq%(inj pretty). lia.
Qed.

(** X11: [generate_embeddings] fails (at [np.vstack]) exactly when the
    list of chunks is empty. *)
Theorem generate_embeddings_fails_iff_empty {vec} (embed : pystr -> vec)
    (chunks : list chunk) :
  generate_embeddings embed chunks = None <-> chunks = [].
Proof.
  split; [|by intros ->].
  intros Hnone. destruct chunks as [|c rest]; [done|].
  by rewrite generate_embeddings_built in Hnone.
Qed.

(** X12: when [generate_embeddings] succeeds on [N] chunks, the index
    has [N] rows and the metadata dictionary has [N] entries; its keys
    are exactly [str(0)], ..., [str(N-1)], and the entry under [str(i)]
    is the record of chunk [i]. *)
Theorem generate_embeddings_keys {vec} (embed : pystr -> vec)
    (chunks : list chunk) (index : list vec)
    (metadata : gmap string metadata_record) :
  generate_embeddings embed chunks = Some (index, metadata) ->
  length index = length chunks
  /\ size metadata = length chunks
  /\ forall key m,
       metadata !! key = Some m <->
       exists (i : nat) (c : chunk),
         chunks !! i = Some c /\ key = str (Z.of_nat i) /\ m = metadata_of c.
Proof.
  intros Hbuilt. destruct (decide (chunks = [])) as [->|Hne]; [done|].
  rewrite generate_embeddings_built in Hbuilt by done.
  injection Hbuilt as <- <-. split; [apply length_fmap|]. split.
  - rewrite build_metadata_size; [by rewrite map_size_empty|].
    intros j _. apply lookup_empty.
  - intros key m. split.
    + intros Hkey. apply build_metadata_origin in Hkey as [Hkey|Hkey].
      * by rewrite lookup_empty in Hkey.
      * destruct Hkey as (n & c & Hn & -> & ->). by exists n, c.
    + intros (i & c & Hi & -> & ->).
      pose proof (build_metadata_lookup 0 chunks ∅ i c Hi) as Hmeta.
      by rewrite Z.add_0_l in Hmeta.
Qed.

Lemma generate_embeddings_keys_witness :
  length sample_index = length sample_chunks
  /\ size (build_metadata 0 sample_chunks ∅) = length sample_chunks
  /\ forall key m,
       build_metadata 0 sample_chunks ∅ !! key = Some m <->
       exists (i : nat) (c : chunk),
         sample_chunks !! i = Some c /\ key = str (Z.of_nat i)
         /\ m = metadata_of c.
Proof.
  apply (generate_embeddings_keys codepoints sample_chunks sample_index
           (build_metadata 0 sample_chunks ∅)).
  reflexivity.
Defined.

(** ** [Retriever.retrieve]: order, and the store it was built with *)

Lemma distances_sublist {dist} metadata (rows : list (Z * dist)) :
  sublist (r_distance <$> omap (row_result metadata) rows) (rows.*2).
Proof.
  induction rows as [|[idx d] rest IH]; [constructor|].
  cbn [omap list_omap fmap list_fmap]. unfold row_result at 1. cbn [fst snd].
  destruct (metadata !! str idx); cbn [fmap option_fmap option_map];
    [by apply sublist_skip | by apply sublist_cons].
Qed.

Lemma Forall_sublist_of {A} (P : A -> Prop) (l k : list A) :
  sublist l k -> Forall P k -> Forall P l.
Proof.
  induction 1 as [|x l k Hsub IH|x l k Hsub IH]; intros Hk; [done| |].
  - apply Forall_cons_1 in Hk as [Hx Hk]. constructor; [done | by apply IH].
  - apply Forall_cons_1 in Hk as [_ Hk]. by apply IH.
Qed.

Lemma StronglySorted_sublist_of {A} (R : A -> A -> Prop) (l k : list A) :
  sublist l k -> StronglySorted R k -> StronglySorted R l.
Proof.
  induction 1 as [|x l k Hsub IH|x l k Hsub IH]; intros Hk; [done| |].
  - apply StronglySorted_inv in Hk as [Hk Hx]. constructor; [by apply IH|].
    by eapply Forall_sublist_of.
  - apply StronglySorted_inv in Hk as [Hk _]. by apply IH.
Qed.

(** X13: [retrieve] keeps the order of the rows the index returns: the
    distances of its results are a subsequence of the distances of the
    rows, so results come in ascending distance whenever the rows do. *)
Theorem retrieve_keeps_order {vec dist} (R : dist -> dist -> Prop)
    (search : index_search vec dist) (embed : pystr -> vec)
    (index : list vec) (metadata : gmap string metadata_record)
    (query : pystr) (top_k : Z) (rows : list (Z * dist)) :
  (forall x y z, R x y -> R y z -> R x z) ->
  search_rows search embed index query top_k = Some rows ->
  Sorted R (rows.*2) ->
  exists results,
    retrieve search embed index metadata query top_k = Some results
    /\ sublist (r_distance <$> results) (rows.*2)
    /\ Sorted R (r_distance <$> results).
Proof.
  intros Htrans Hrows Hsorted. eexists. split; [by apply retrieve_omap|].
  split; [apply distances_sublist|].
  apply StronglySorted_Sorted.
  apply (StronglySorted_sublist_of R _ _ (distances_sublist metadata rows)).
  by apply Sorted_StronglySorted.
Qed.

Lemma retrieve_keeps_order_witness :
  exists results,
    retrieve exact_search codepoints sample_index sample_metadata_gap
             (of_string "beta") 5 = Some results
    /\ sublist (r_distance <$> results) ([(1, 0); (0, 115); (2, 234)].*2)
    /\ Sorted Z.le (r_distance <$> results).
Proof.
  apply (retrieve_keeps_order Z.le exact_search codepoints sample_index
           sample_metadata_gap (of_string "beta") 5
           [(1, 0); (0, 115); (2, 234)]).
  - intros x y z. lia.
  - vm_compute. reflexivity.
  - cbn. repeat (first [apply Sorted_nil | apply Sorted_cons
                       | apply HdRel_nil | apply HdRel_cons]); lia.
Defined.

Lemma omap_ext_pointwise {A B} (f g : A -> option B) (l : list A) :
  (forall x, f x = g x) -> omap f l = omap g l.
Proof.
  intros Hfg. induction l as [|x l IH]; [done|].
  cbn [omap list_omap]. by rewrite Hfg, IH.
Qed.

Lemma built_metadata_lookup (chunks : list chunk) (i : Z) :
  build_metadata 0 chunks ∅ !! str i
  = if decide (0 <= i) then metadata_of <$> chunks !! Z.to_nat i else None.
Proof.
  destruct (build_metadata 0 chunks ∅ !! str i) as [m|] eqn:Hm.
  - apply build_metadata_origin in Hm as [Hm | (n & c & Hn & Heq & ->)].
    + by rewrite lookup_empty in Hm.
    + unfold str in Heq. apply (inj pretty) in Heq. subst i.
      rewrite decide_True by lia.
      replace (Z.to_nat (0 + Z.of_nat n)) with n by lia. by rewrite Hn.
  - destruct (decide (0 <= i)) as [Hi|]; [|done].
    destruct (chunks !! Z.to_nat i) as [c|] eqn:Hc; [|done].
    pose proof (build_metadata_lookup 0 chunks ∅ _ c Hc) as Hfound.
    replace (0 + Z.of_nat (Z.to_nat i)) with i in Hfound by lia. congruence.
Qed.

(** X14: over an index and a metadata store that [generate_embeddings]
    built from one list of chunks, [retrieve] answers every row whose
    slot is in [0..N-1] with the [chunk_id], text and provenance of the
    chunk in that slot and the distance of the row, in the order of the
    rows, and drops the rows of every other slot (such as [-1]); when
    all slots are in range there is one result per row. *)
Theorem retrieve_over_built_store {vec dist} (search : index_search vec dist)
    (embed : pystr -> vec) (chunks : list chunk) (index : list vec)
    (metadata : gmap string metadata_record) (query : pystr) (top_k : Z)
    (rows : list (Z * dist)) :
  generate_embeddings embed chunks = Some (index, metadata) ->
  search_rows search embed index query top_k = Some rows ->
  exists results,
    retrieve search embed index metadata query top_k = Some results
    /\ results = omap (slot_result chunks) rows
    /\ (Forall (fun row => 0 <= row.1 < len chunks) rows ->
        length results = length rows).
Proof.
  intros Hbuilt Hrows. destruct (decide (chunks = [])) as [->|Hne]; [done|].
  rewrite generate_embeddings_built in Hbuilt by done.
  injection Hbuilt as <- <-.
  assert (Hsame : forall row : Z * dist,
    row_result (build_metadata 0 chunks ∅) row = slot_result chunks row).
  { intros [i d]. unfold row_result, slot_result. cbn [fst snd].
    rewrite built_metadata_lookup. destruct (decide (0 <= i)); [|done].
    by destruct (chunks !! Z.to_nat i). }
  eexists. split; [by apply retrieve_omap|]. split.
  - by apply omap_ext_pointwise.
  - intros Hrange. rewrite (omap_ext_pointwise _ _ rows Hsame).
    clear Hrows. induction Hrange as [|[i d] rest [Hlo Hhi] _ IH]; [done|].
    cbn [omap list_omap]. unfold slot_result at 1. cbn [fst snd].
    rewrite decide_True by done.
    destruct (lookup_lt_is_Some_2 chunks (Z.to_nat i)) as [c ->];
      [unfold len in Hhi; cbn [fst] in Hlo, Hhi; lia|].
    cbn [fmap option_fmap option_map length]. by rewrite IH.
Qed.

Lemma retrieve_over_built_store_witness :
  exists results,
    retrieve exact_search codepoints sample_index
             (build_metadata 0 sample_chunks ∅) (of_string "beta") 5
    = Some results
    /\ results = omap (slot_result sample_chunks) [(1, 0); (0, 115); (2, 234)]
    /\ (Forall (fun row => 0 <= row.1 < len sample_chunks)
               [(1, 0); (0, 115); (2, 234)] ->
        length results = length [(1, 0); (0, 115); (2, 234)]).
Proof.
  apply (retrieve_over_built_store exact_search codepoints sample_chunks
           sample_index (build_metadata 0 sample_chunks ∅) (of_string "beta") 5
           [(1, 0); (0, 115); (2, 234)]).
  - reflexivity.
  - vm_compute. reflexivity.
Defined.

Lemma chunk_rows_keeps_numbered fuel df st st' :
  chunk_rows fuel df st = Some st' -> numbered st -> numbered st'.
Proof.
  revert st. induction df as [|row rest IH]; intros st Hrun Hst.
  - by injection Hrun as <-.
  - cbn [chunk_rows] in Hrun.
    destruct (chunk_text fuel (text_clean row) CHUNK_SIZE CHUNK_OVERLAP);
      [|done].
    eapply IH; [exact Hrun|]. by apply emit_chunks_numbered.
Qed.

(** X15: the whole pipeline: over the list that [chunk_notes] returned
    and the index and metadata that [generate_embeddings] built from
    it, every result of [retrieve] carries as [chunk_id] the slot of
    the row it comes from, together with the distance of that row and
    the text of the chunk stored in that position of the list. *)
Theorem retrieve_chunk_id_is_slot {vec dist} (search : index_search vec dist)
    (embed : pystr -> vec) (fuel : nat) (df : list note_row)
    (chunked_data : list chunk) (index : list vec)
    (metadata : gmap string metadata_record) (query : pystr) (top_k : Z)
    (rows : list (Z * dist)) :
  chunk_notes fuel df = Some chunked_data ->
  generate_embeddings embed chunked_data = Some (index, metadata) ->
  search_rows search embed index query top_k = Some rows ->
  exists results,
    retrieve search embed index metadata query top_k = Some results
    /\ Forall (fun res =>
                 exists c,
                   (r_chunk_id res, r_distance res) ∈ rows
                   /\ 0 <= r_chunk_id res
                   /\ chunked_data !! Z.to_nat (r_chunk_id res) = Some c
                   /\ r_text res = text c
                   /\ r_original_index res = original_index c) results.
Proof.
  intros Hnotes Hbuilt Hrows.
  assert (Hpos : forall (j : nat) (c : chunk),
            chunked_data !! j = Some c -> chunk_id c = Z.of_nat j).
  { unfold chunk_notes in Hnotes.
    destruct (chunk_rows fuel df ([], 0)) as [[data cid]|] eqn:Hrun; [|done].
    injection Hnotes as <-.
    by destruct (chunk_rows_keeps_numbered _ _ _ _ Hrun numbered_init). }
  destruct (decide (chunked_data = [])) as [->|Hne]; [done|].
  rewrite generate_embeddings_built in Hbuilt by done.
  injection Hbuilt as <- <-.
  eexists. split; [by apply retrieve_omap|].
  apply Forall_forall. intros res Hres.
  apply list_elem_of_omap in Hres as ([i d] & Hin & Hres).
  unfold row_result in Hres. cbn [fst snd] in Hres.
  rewrite built_metadata_lookup in Hres.
  destruct (decide (0 <= i)) as [Hi|]; [|done].
  destruct (chunked_data !! Z.to_nat i) as [c|] eqn:Hc; [|done].
  injection Hres as <-. exists c. cbn.
  rewrite (Hpos _ c Hc). rewrite Z2Nat.id by done.
  repeat split; done.
Qed.

Lemma retrieve_chunk_id_is_slot_witness :
  exists results,
    retrieve exact_search codepoints
             ((fun c => codepoints (text c))
                <$> default [] (chunk_notes 600 sample_df))
             (build_metadata 0 (default [] (chunk_notes 600 sample_df)) ∅)
             (of_string "short note") 2
    = Some results
    /\ Forall (fun res =>
                 exists c,
                   (r_chunk_id res, r_distance res) ∈ [(2, 0); (1, 24321)]
                   /\ 0 <= r_chunk_id res
                   /\ default [] (chunk_notes 600 sample_df)
                      !! Z.to_nat (r_chunk_id res) = Some c
                   /\ r_text res = text c
                   /\ r_original_index res = original_index c) results.
Proof.
  apply (retrieve_chunk_id_is_slot exact_search codepoints 600 sample_df
           (default [] (chunk_notes 600 sample_df))
           ((fun c => codepoints (text c))
              <$> default [] (chunk_notes 600 sample_df))
           (build_metadata 0 (default [] (chunk_notes 600 sample_df)) ∅)
           (of_string "short note") 2 [(2, 0); (1, 24321)]).
  - vm_compute. reflexivity.
  - vm_compute. reflexivity.
  - vm_compute. reflexivity.
Defined.

(** ** [_generate_filename] *)

Lemma split_ws_words (P : N -> Prop) (word text : pystr) :
  Forall (fun c => Py_UNICODE_ISSPACE c = false /\ P c) word ->
  Forall P text ->
  Forall (Forall (fun c => Py_UNICODE_ISSPACE c = false /\ P c))
         (split_ws word text).
Proof.
  intros Hword Htext. revert word Hword.
  induction Htext as [|c rest Hc _ IH]; intros word Hword.
  - cbn [split_ws]. destruct (decide (word = [])); by repeat constructor.
  - cbn [split_ws]. destruct (Py_UNICODE_ISSPACE c) eqn:Hsp.
    + destruct (decide (word = [])); [by apply IH|].
      constructor; [done | by apply IH].
    + apply IH. apply Forall_app. split; [done|]. by repeat constructor.
Qed.

Lemma py_join_chars (P : N -> Prop) (sep : pystr) (words : list pystr) :
  Forall P sep -> Forall (Forall P) words -> Forall P (py_join sep words).
Proof.
  intros Hsep Hwords. induction Hwords as [|w rest Hw Hrest IH]; [constructor|].
  cbn [py_join]. destruct rest as [|w' rest]; [done|].
  apply Forall_app. split; [done|]. apply Forall_app. by split.
Qed.

Lemma Forall_slice {A} (P : A -> Prop) (l : list A) (a b : Z) :
  Forall P l -> Forall P (slice l a b).
Proof. intros Hl. unfold slice. by apply Forall_take, Forall_drop. Qed.

(** X16: the file name that [_generate_filename] builds is a slug
    followed by an underscore, the timestamp and [.md]; the slug has
    between 3 and 50 characters, none of them whitespace, and each of
    them is an underscore, a word character of the lower-cased query,
    or a letter of the default slug "query". *)
Theorem generate_filename_slug (lower : pystr -> pystr) (is_word : N -> bool)
    (timestamp query : pystr) :
  exists slug,
    generate_filename lower is_word timestamp query
    = slug ++ [UNDERSCORE] ++ timestamp ++ of_string ".md"
    /\ 3 <= len slug <= 50
    /\ Forall (fun c =>
                 Py_UNICODE_ISSPACE c = false
                 /\ (c = UNDERSCORE
                     \/ (is_word c = true /\ c ∈ lower query)
                     \/ c ∈ of_string "query")) slug.
Proof.
  exists (query_slug lower is_word query). split; [done|].
  unfold query_slug.
  set (kept := List.filter _ (lower query)).
  set (words := slice (py_split kept) 0 5).
  set (Q := fun c : N =>
              Py_UNICODE_ISSPACE c = false
              /\ (c = UNDERSCORE
                  \/ (is_word c = true /\ c ∈ lower query)
                  \/ c ∈ of_string "query")).
  assert (Hkept : Forall (fun c => (is_word c = true
                                    \/ Py_UNICODE_ISSPACE c = true)
                                   /\ c ∈ lower query) kept).
  { apply Forall_forall. intros c Hc. unfold kept in Hc.
    apply list_elem_of_In, List.filter_In in Hc as [Hc Hkeep].
    split; [|by apply list_elem_of_In].
    destruct (is_word c); [by left|]. destruct (Py_UNICODE_ISSPACE c); [by right|].
    done. }
  assert (Hwords : Forall (Forall Q) words).
  { apply Forall_slice. unfold py_split.
    pose proof (fun H => split_ws_words _ [] kept H Hkept) as Hsplit.
    specialize (Hsplit ltac:(constructor)).
    eapply Forall_impl; [exact Hsplit|].
    intros w Hw. eapply Forall_impl; [exact Hw|].
    intros c (Hsp & [Hword|Hsp'] & Hin); [|congruence].
    split; [done|]. right. by left. }
  assert (Hjoin : Forall Q (py_join [UNDERSCORE] words)).
  { apply py_join_chars; [|done]. constructor; [|done]. split; [done|by left]. }
  assert (Hdefault : Forall Q (of_string "query")).
  { apply Forall_forall. intros c Hc. split; [|by right; right].
    cbn in Hc. repeat (apply elem_of_cons in Hc as [->|Hc]; [done|]).
    by apply not_elem_of_nil in Hc. }
  destruct (Z.ltb_spec (len (py_join [UNDERSCORE] words)) 3) as [Hlt|Hge].
  - split; [|by apply Forall_slice].
    rewrite len_slice by lia. change (len (of_string "query")) with 5. lia.
  - split; [|by apply Forall_slice]. rewrite len_slice by lia. lia.
Qed.

(** ** [chunk_text]: what neighbouring chunks share *)

Lemma slice_slice {A} (l : list A) (s w a b : Z) :
  0 <= s -> 0 <= a <= b -> b <= w ->
  slice (slice l s (s + w)) a b = slice l (s + a) (s + b).
Proof.
  intros Hs [Ha Hab] Hb. rewrite !slice_nonneg by lia.
  rewrite skipn_firstn_comm, take_take, drop_drop. f_equal; [lia|].
  f_equal. lia.
Qed.

(** X17: under a valid configuration two neighbouring chunks overlap as
    configured: the characters of a chunk from position
    [chunk_size - overlap] on are the first [overlap] characters of the
    next chunk (both clipped where the text ends). *)
Theorem chunk_text_neighbours_overlap
    (fuel : nat) (text : pystr) (chunk_size overlap : Z) :
  0 < chunk_size -> 0 <= overlap < chunk_size -> (length text <= fuel)%nat ->
  exists chunks,
    chunk_text fuel text chunk_size overlap = Some chunks
    /\ forall (i : nat) (c c' : pystr),
         chunks !! i = Some c -> chunks !! S i = Some c' ->
         slice c (chunk_size - overlap) chunk_size = slice c' 0 overlap.
Proof.
  intros Hsize [Hov Hstride] Hfuel.
  destruct (chunk_text_cases text chunk_size overlap fuel)
    as [[Hshort Hrun] | [Hlong (ws & Hrun & Hws)]]; try done.
  - exists [text]. split; [done|]. by intros i c c' _ Hnext.
  - exists ws. split; [done|]. intros i c c' Hi Hnext.
    rewrite (windows_lookup _ _ _ _ _ i c Hws Hi).
    rewrite (windows_lookup _ _ _ _ _ (S i) c' Hws Hnext).
    assert (Hs : 0 <= Z.of_nat i * (chunk_size - overlap)) by nia.
    replace (Z.of_nat (S i) * (chunk_size - overlap))
      with (Z.of_nat i * (chunk_size - overlap) + (chunk_size - overlap))
      by lia.
    rewrite !slice_slice by lia. f_equal; lia.
Qed.

Lemma chunk_text_neighbours_overlap_witness :
  exists chunks,
    chunk_text 11 (of_string "abcdefghijk") 10 5 = Some chunks
    /\ forall (i : nat) (c c' : pystr),
         chunks !! i = Some c -> chunks !! S i = Some c' ->
         slice c (10 - 5) 10 = slice c' 0 5.
Proof.
  apply (chunk_text_neighbours_overlap 11 (of_string "abcdefghijk") 10 5).
  - lia.
  - lia.
  - vm_compute. lia.
Defined.
